(** * pip.baseparser: the configuration-resolution engine

    A shallow embedding of [ConfigOptionParser] (src/pip/baseparser.py):
    key normalization, the enumeration of environment variables, the merge
    of the configuration sources, the coercion of the raw values and the
    materialization of the defaults, with the properties of the
    specification stated over it. *)

From Stdlib Require Import String Ascii ZArith List Lia Bool.
From stdpp Require Import base option list gmap strings.
Import ListNotations.

Set Warnings "-register-all,-clear-no-such-hyp".

Local Open Scope string_scope.
Local Open Scope list_scope.

(** ** Python strings

    The [str] methods used by the parser, over byte strings. *)

Module PyStr.

(** [s.startswith(prefix)] *)
Definition startswith (s pre : string) : bool := String.prefix pre s.

(** The scanning loop of [s.replace(old, new)] for a non-empty [old]:
    occurrences are found left to right and do not overlap; [skip]
    counts the characters of the current occurrence still to be dropped. *)
Fixpoint replace_from (skip : nat) (old new s : string) : string :=
  match s with
  | EmptyString => EmptyString
  | String c s' =>
      match skip with
      | S n => replace_from n old new s'
      | O =>
          if String.prefix old s
          then new ++ replace_from (String.length old - 1) old new s'
          else String c (replace_from 0 old new s')
      end
  end.

(** With an empty [old], Python puts [new] before every character and
    at the end. *)
Fixpoint intersperse (new s : string) : string :=
  match s with
  | EmptyString => new
  | String c s' => new ++ String c (intersperse new s')
  end.

(** [s.replace(old, new)] *)
Definition replace (s old new : string) : string :=
  match old with
  | EmptyString => intersperse new s
  | _ => replace_from 0 old new s
  end.

Definition lower_ascii (c : ascii) : ascii :=
  let n := nat_of_ascii c in
  if (65 <=? n)%nat && (n <=? 90)%nat then ascii_of_nat (n + 32) else c.

(** [s.lower()] *)
Fixpoint lower (s : string) : string :=
  match s with
  | EmptyString => EmptyString
  | String c s' => String (lower_ascii c) (lower s')
  end.

(** The characters [str.split()] treats as separators. *)
Definition isspace (c : ascii) : bool :=
  let n := nat_of_ascii c in
  ((9 <=? n)%nat && (n <=? 13)%nat) || (n =? 32)%nat.

(** [s.split()] with no argument: the maximal runs of non-blank
    characters, in order.  [cur] is the run being read, reversed. *)
Fixpoint split_from (cur : list ascii) (s : string) : list string :=
  let flush rest :=
    match cur with
    | [] => rest
    | _ => string_of_list_ascii (rev cur) :: rest
    end in
  match s with
  | EmptyString => flush []
  | String c s' =>
      if isspace c then flush (split_from [] s')
      else split_from (c :: cur) s'
  end.

Definition split (s : string) : list string := split_from [] s.

(** Membership of a character in a string. *)
Fixpoint occurs (c : ascii) (s : string) : bool :=
  match s with
  | EmptyString => false
  | String c' s' => Ascii.eqb c c' || occurs c s'
  end.

End PyStr.

(** ** Insertion-ordered dictionaries with string keys

    The local dictionaries [config] and [normalized] are iterated with
    [items()].  The order of that iteration is the interpreter's: the
    order of the hashes on the versions of Python this code runs on, the
    order of insertion on later ones.  The model keeps the order of
    insertion: a key keeps the position of its first insertion and an
    assignment to a present key replaces its value in place.  What is
    proved of a lookup does not depend on this choice, and the theorems
    on what the loop of [update_defaults] stores are stated for every
    order in which the items can be visited, that is for every
    permutation of [items]. *)

Module PyDict.

Definition t := list (string * string).

(** [d[k] = v] *)
Fixpoint set (k v : string) (d : t) : t :=
  match d with
  | [] => [(k, v)]
  | (k', v') :: d' =>
      if String.eqb k k' then (k', v) :: d' else (k', v') :: set k v d'
  end.

(** [d.get(k)] *)
Fixpoint get (k : string) (d : t) : option string :=
  match d with
  | [] => None
  | (k', v') :: d' => if String.eqb k k' then Some v' else get k d'
  end.

(** [d.update(other)] *)
Definition update (d other : t) : t :=
  fold_left (fun acc kv => set (fst kv) (snd kv) acc) other d.

(** [d.items()] *)
Definition items (d : t) : list (string * string) := d.

End PyDict.

(** ** Key normalization (lines 143-153) *)

(** The body of the loop of [normalize_keys], on one key. *)
Definition normalize_key (key : string) : string :=
  let key := PyStr.replace key "_" "-" in
  if negb (PyStr.startswith key "--") then "--" ++ key else key.

Definition normalize_keys (items : list (string * string)) : PyDict.t :=
  fold_left
    (fun normalized kv => PyDict.set (normalize_key (fst kv)) (snd kv) normalized)
    items [].

(** A reference to an object of the store is a position in it. *)
Abbreviation loc := nat.

(** ** Python values, exceptions and outcomes *)

Section Engine.

(** The carrier of Python's floating-point numbers.  The engine only
    stores and returns them. *)
Context {Float : Type}.

Inductive pyval : Type :=
| PNone
| PBool (b : bool)
| PInt (n : Z)
| PFloat (x : Float)
| PStr (s : string)
| PList (l : list pyval)
| PTuple (l : list pyval).

(** The types of [optparse] that have a checker in [Option.TYPE_CHECKER];
    the first four convert with a builtin. *)
Inductive builtin_type := int_t | long_t | float_t | complex_t.

Inductive opt_type :=
| string_t
| builtin (b : builtin_type)
| choice.

(** The message of an [optparse.OptionValueError], kept structured:
    [check_builtin] formats "option %s: invalid %s value: %r" and
    [check_choice] "option %s: invalid choice: %r (choose from %s)". *)
Inductive ove_msg :=
| InvalidValue (opt : string) (what : builtin_type) (value : pyval)
| InvalidChoice (opt : string) (value : pyval) (choices : list string).

Inductive exn :=
| OptionValueError (msg : ove_msg)
| ValueError (about : pyval)
| TypeError
| AttributeError
| IndexError
| SystemExit (code : Z).

Inductive outcome (A : Type) :=
| Return (a : A)
| Raise (e : exn).
Global Arguments Return {A} a.
Global Arguments Raise {A} e.

(** What [print] writes: the only line of this module is
    "An error occured during configuration: %s" % e. *)
Inductive line :=
| ConfigurationError (e : ove_msg).

(** ** Option descriptors ([optparse.Option]) *)

Inductive Action :=
| store | store_const | store_true | store_false
| append | append_const | count | callback | help | version.

Definition Action_eqb (a b : Action) : bool :=
  match a, b with
  | store, store | store_const, store_const | store_true, store_true
  | store_false, store_false | append, append
  | append_const, append_const | count, count | callback, callback
  | help, help | version, version => true
  | _, _ => false
  end.

(** [default = None] is [optparse.NO_DEFAULT]; [nargs = None] is
    Python's [None]; [choices] is empty for the types other than
    [choice]. *)
Record Option := mkOption {
  _short_opts : list string;
  _long_opts : list string;
  action : Action;
  type : option opt_type;
  dest : option string;
  default : option pyval;
  nargs : option Z;
  choices : list string
}.

Definition set_nargs (o : Option) (n : option Z) : Option :=
  mkOption (_short_opts o) (_long_opts o) (action o) (type o) (dest o)
           (default o) n (choices o).

(** ** The store

    [options] holds the option objects of the parser in the order of
    [_get_all_options()]: an object is identified by its position.
    [heap] holds the dictionaries ([defaults] tables and the attribute
    tables of [optparse.Values]); a dictionary is referred to by its
    position too, so that two names for one dictionary see the same
    updates.  A key of a [defaults] table is an [Option.dest], which may
    be [None]. *)

Record State := mkState {
  environ : list (string * string);
  options : list Option;
  heap : list (gmap (option string) pyval);
  stdout : list line
}.

(** The fields of the parser that resolution only reads.  [config] is
    the [RawConfigParser] after [read]: the sections it has, each with
    what [items(section)] returns. *)
Record ConfigOptionParser := mkParser {
  name : string;
  config : list (string * list (string * string));
  defaults : loc;
  process_default_values : bool
}.

(** ** A state and exception monad *)

Definition M (A : Type) : Type := State -> outcome A * State.

Definition ret {A} (a : A) : M A := fun st => (Return a, st).

Definition raise {A} (e : exn) : M A := fun st => (Raise e, st).

Definition bind {A B} (m : M A) (k : A -> M B) : M B :=
  fun st =>
    match m st with
    | (Return a, st') => k a st'
    | (Raise e, st') => (Raise e, st')
    end.

(** [try: m except OptionValueError: h] *)
Definition try_except_OptionValueError {A} (m : M A) (h : ove_msg -> M A) : M A :=
  fun st =>
    match m st with
    | (Raise (OptionValueError e), st') => h e st'
    | r => r
    end.

Definition lift {A} (r : outcome A) : M A := fun st => (r, st).

End Engine.

Arguments pyval : clear implicits.
Arguments exn : clear implicits.
Arguments outcome : clear implicits.
Arguments ove_msg : clear implicits.
Arguments line : clear implicits.
Arguments Option : clear implicits.
Arguments State : clear implicits.
Arguments M : clear implicits.

Declare Scope py_scope.
Delimit Scope py_scope with py.
Notation "'let!' x ':=' m 'in' k" := (bind m (fun x => k))
  (at level 10, x pattern, m at level 100, k at level 200) : py_scope.
Notation "m ';;;' k" := (bind m (fun _ => k))
  (at level 100, k at level 200, right associativity) : py_scope.
Local Open Scope py_scope.

(** [optparse._builtin_cvt]: the builtin ([int], [long], [float],
    [complex]) that converts a value of each type.  The builtins belong
    to the interpreter; the engine is verified for every behaviour of
    theirs. *)
Class Builtins (Float : Type) :=
  builtin_cvt : builtin_type -> pyval Float -> outcome Float (pyval Float).

(** ** The engine *)

Section Resolution.

Context {Float : Type} `{!Builtins Float}.

Local Abbreviation pyval := (pyval Float).
Local Abbreviation exn := (exn Float).
Local Abbreviation outcome := (outcome Float).
Local Abbreviation Option := (Option Float).
Local Abbreviation State := (State Float).
Local Abbreviation M := (M Float).

(** *** Primitive operations on the store *)

Definition get_state : M State := fun st => (Return st, st).

(** The dictionary a reference points to. *)
Definition deref (st : State) (d : loc) : gmap (option string) pyval :=
  match heap st !! d with
  | Some m => m
  | None => ∅
  end.

(** Assignment to an attribute of the option object [i]. *)
Definition set_option (i : nat) (o : Option) : M unit :=
  fun st =>
    (Return tt,
     mkState (environ st) (<[i := o]> (options st)) (heap st) (stdout st)).

(** [d[k] = v] on the dictionary at [d]. *)
Definition dict_setitem (d : loc) (k : option string) (v : pyval) : M unit :=
  fun st =>
    (Return tt,
     mkState (environ st) (options st) (alter (insert k v) d (heap st)) (stdout st)).

(** [d.get(k)] on the dictionary at [d]. *)
Definition dict_get (d : loc) (k : option string) : M (option pyval) :=
  fun st => (Return (deref st d !! k), st).

Definition alloc (m : gmap (option string) pyval) : M loc :=
  fun st =>
    (Return (length (heap st)),
     mkState (environ st) (options st) (heap st ++ [m]) (stdout st)).

(** [d.copy()]: a new dictionary with the bindings of [d]. *)
Definition dict_copy (d : loc) : M loc :=
  fun st => alloc (deref st d) st.

(** [optparse.Values(defaults)]: a new object whose attributes are the
    items of [defaults]; [setattr] refuses a name that is not a string. *)
Definition Values (d : loc) : M loc :=
  fun st =>
    let m := deref st d in
    if decide (is_Some (m !! None)) then (Raise TypeError, st)
    else alloc m st.

Definition print (l : line Float) : M unit :=
  fun st =>
    (Return tt, mkState (environ st) (options st) (heap st) (stdout st ++ [l])).

Definition sys_exit {A} (code : Z) : M A := raise (SystemExit code).

(** A [for] loop: the first exception ends it. *)
Fixpoint for_each {X} (body : X -> M unit) (l : list X) : M unit :=
  match l with
  | [] => ret tt
  | x :: l' => body x ;;; for_each body l'
  end.

(** *** [distutils.util.strtobool] *)

Definition true_tokens : list string := ["y"; "yes"; "t"; "true"; "on"; "1"].
Definition false_tokens : list string := ["n"; "no"; "f"; "false"; "off"; "0"].

Definition strtobool (val : pyval) : outcome pyval :=
  match val with
  | PStr val =>
      let val := PyStr.lower val in
      if existsb (String.eqb val) true_tokens then Return (PInt 1)
      else if existsb (String.eqb val) false_tokens then Return (PInt 0)
      else Raise (ValueError (PStr val))
  | _ => Raise AttributeError
  end.

(** *** The methods of [optparse.Option] that resolution calls *)

Definition check_builtin (option : Option) (what : builtin_type)
    (opt : string) (value : pyval) : outcome pyval :=
  match builtin_cvt what value with
  | Raise (ValueError _) => Raise (OptionValueError (InvalidValue opt what value))
  | r => r
  end.

Definition check_choice (option : Option) (opt : string) (value : pyval)
    : outcome pyval :=
  match value with
  | PStr s =>
      if existsb (String.eqb s) (choices option) then Return value
      else Raise (OptionValueError (InvalidChoice opt value (choices option)))
  | _ => Raise (OptionValueError (InvalidChoice opt value (choices option)))
  end.

Definition check_value (option : Option) (opt : string) (value : pyval)
    : outcome pyval :=
  match type option with
  | Some (builtin what) => check_builtin option what opt value
  | Some choice => check_choice option opt value
  | Some string_t | None => Return value
  end.

(** What iterating over a value yields, when it can be iterated. *)
Definition iterate (value : pyval) : option (list pyval) :=
  match value with
  | PList l | PTuple l => Some l
  | PStr s => Some (map (fun c => PStr (String c EmptyString)) (list_ascii_of_string s))
  | _ => None
  end.

Fixpoint check_values (option : Option) (opt : string) (vs : list pyval)
    : outcome (list pyval) :=
  match vs with
  | [] => Return []
  | v :: vs' =>
      match check_value option opt v with
      | Raise e => Raise e
      | Return v' =>
          match check_values option opt vs' with
          | Raise e => Raise e
          | Return vs'' => Return (v' :: vs'')
          end
      end
  end.

Definition convert_value (option : Option) (opt : string) (value : pyval)
    : outcome pyval :=
  match value with
  | PNone => Return PNone
  | _ =>
      match nargs option with
      | Some 1%Z => check_value option opt value
      | _ =>
          match iterate value with
          | None => Raise TypeError
          | Some vs =>
              match check_values option opt vs with
              | Raise e => Raise e
              | Return vs' => Return (PTuple vs')
              end
          end
      end
  end.

Definition get_opt_string (option : Option) : outcome string :=
  match _long_opts option, _short_opts option with
  | s :: _, _ => Return s
  | [], s :: _ => Return s
  | [], [] => Raise IndexError
  end.

(** *** The methods of the parser *)

(** [OptionContainer.get_option]:
    [self._short_opt.get(opt_str) or self._long_opt.get(opt_str)].  The
    two tables of [optparse] index the option objects by their option
    strings, each string owned by one object; the lookup returns the
    object (its position) with its current contents. *)
Definition get_option (opts : list Option) (opt_str : string)
    : option (nat * Option) :=
  match list_find (fun o => opt_str ∈ _short_opts o) opts with
  | Some r => Some r
  | None => list_find (fun o => opt_str ∈ _long_opts o) opts
  end.

(** Lines 155-159. *)
Fixpoint section_items (cfg : list (string * list (string * string)))
    (name : string) : option (list (string * string)) :=
  match cfg with
  | [] => None
  | (n, its) :: cfg' => if String.eqb name n then Some its else section_items cfg' name
  end.

Definition get_config_section (self : ConfigOptionParser) (name : string)
    : list (string * string) :=
  match section_items (config self) name with
  | Some its => its
  | None => []
  end.

(** Lines 161-165, on the items of [os.environ]. *)
Fixpoint get_environ_vars (env : list (string * string)) (prefix : string)
    : list (string * string) :=
  match env with
  | [] => []
  | (key, val) :: env' =>
      if PyStr.startswith key prefix
      then (PyStr.lower (PyStr.replace key prefix ""), val)
             :: get_environ_vars env' prefix
      else get_environ_vars env' prefix
  end.

(** Lines 114-119: the merged raw mapping. *)
Definition merged_config (self : ConfigOptionParser)
    (env : list (string * string)) : PyDict.t :=
  let config := [] in
  let config :=
    fold_left
      (fun config section =>
         PyDict.update config (normalize_keys (get_config_section self section)))
      ["global"; name self] config in
  PyDict.update config (normalize_keys (get_environ_vars env "PIP_")).

Definition is_flag_action (a : Action) : bool :=
  Action_eqb a store_true || Action_eqb a store_false || Action_eqb a count.

(** Lines 122-140: the body of the loop over [config.items()]. *)
Definition update_defaults_item (defaults : loc) (kv : string * string) : M unit :=
  let key := fst kv in
  let val := snd kv in
  let! st := get_state in
  match get_option (options st) key with
  | None => ret tt
  | Some (i, option) =>
      if String.eqb val "" then ret tt
      else
        let! (option, val) :=
          if Action_eqb (action option) append
          then ret (option, PList (map PStr (PyStr.split val)))
          else
            let option := set_nargs option (Some 1%Z) in
            set_option i option ;;; ret (option, PStr val) in
        let! val :=
          if is_flag_action (action option) then lift (strtobool val)
          else ret val in
        let! val :=
          try_except_OptionValueError
            (lift (convert_value option key val))
            (fun e => print (ConfigurationError e) ;;; sys_exit 3) in
        dict_setitem defaults (dest option) val
  end.

(** Lines 109-141. *)
Definition update_defaults (self : ConfigOptionParser) (defaults : loc) : M loc :=
  let! st := get_state in
  let config := merged_config self (environ st) in
  for_each (update_defaults_item defaults) (PyDict.items config) ;;;
  ret defaults.

(** Lines 175-179: the body of the loop over the options. *)
Definition check_default (defaults : loc) (option : Option) : M unit :=
  let! default := dict_get defaults (dest option) in
  match default with
  | Some (PStr s) =>
      let! opt_str := lift (get_opt_string option) in
      let! v := lift (check_value option opt_str (PStr s)) in
      dict_setitem defaults (dest option) v
  | _ => ret tt
  end.

(** Lines 167-180. *)
Definition get_default_values (self : ConfigOptionParser) : M loc :=
  if negb (process_default_values self) then Values (defaults self)
  else
    let! defaults := dict_copy (defaults self) in
    let! defaults := update_defaults self defaults in
    let! st := get_state in
    for_each (check_default defaults) (options st) ;;;
    Values defaults.

(** Lines 85-88, the part of [expand_default] that is this module's:
    the defaults are updated in place before the help is rendered. *)
Definition expand_default_update (self : ConfigOptionParser) : M loc :=
  update_defaults self (defaults self).

(** *** Vocabulary for the properties *)

(** The value lines 128-135 compute from a non-empty raw value, apart
    from their effects on the store: the split of a multi-line value,
    [nargs] set to 1 for the other actions, [strtobool] for the flag
    actions, then [convert_value]. *)
Definition coerced_value (option : Option) (key val : string) : outcome pyval :=
  let (option, val) :=
    if Action_eqb (action option) append
    then (option, PList (map PStr (PyStr.split val)))
    else (set_nargs option (Some 1%Z), PStr val) in
  match (if is_flag_action (action option) then strtobool val else Return val) with
  | Raise e => Raise e
  | Return val => convert_value option key val
  end.

(** The state after [option.nargs = 1] on the object [i], or the same
    state for an [append] option. *)
Definition after_nargs (i : nat) (o : Option) (st : State) : State :=
  if Action_eqb (action o) append then st
  else mkState (environ st) (<[i := set_nargs o (Some 1%Z)]> (options st))
               (heap st) (stdout st).

(** Whether the loop body reaches line 140 with the destination [dn] on
    the item [kv] when nothing raises: the value is not empty and the key
    is of an option whose [dest] is [dn]. *)
Definition writes_dest (opts : list Option) (dn : option string)
    (kv : string * string) : bool :=
  negb (String.eqb (snd kv) "") &&
  match get_option opts (fst kv) with
  | Some (_, o) => bool_decide (dest o = dn)
  | None => false
  end.

(** The keys that [get_option] finds. *)
Definition known_key (opts : list Option) (kv : string * string) : bool :=
  match get_option opts (fst kv) with
  | Some _ => true
  | None => false
  end.

Definition nonempty_value (kv : string * string) : bool :=
  negb (String.eqb (snd kv) "").

(** What the loop of [update_defaults] may do to an option object:
    nothing, or [option.nargs = 1] on an option that is not an [append]
    one. *)
Definition nargs_update (o o' : Option) : Prop :=
  o' = o \/ (action o <> append /\ o' = set_nargs o (Some 1%Z)).

(** What a run of the loop over the dictionary at [d] leaves alone: the
    environment, the option objects but for [nargs_update], the number of
    dictionaries and every dictionary other than [d]. *)
Definition evolves (d : loc) (st st' : State) : Prop :=
  environ st' = environ st /\
  Forall2 nargs_update (options st) (options st') /\
  length (heap st') = length (heap st) /\
  (forall l : loc, l <> d -> heap st' !! l = heap st !! l).

(** The value [add_option] stores in [defaults] for an option: its
    [default], or [None] without one. *)
Definition seeded_default (o : Option) : pyval :=
  match default o with
  | Some v => v
  | None => PNone
  end.

(** The raw value each source supplies for a normalized key: the value
    of its last pair whose key normalizes to it. *)
Definition from_environment (env : list (string * string)) (k : string)
    : option string :=
  PyDict.get k (normalize_keys (get_environ_vars env "PIP_")).

Definition from_section (self : ConfigOptionParser) (section k : string)
    : option string :=
  PyDict.get k (normalize_keys (get_config_section self section)).

(** The value of the highest-precedence source that supplies the key:
    the environment, else the section named after the command, else the
    section [global]. *)
Definition highest_precedence_value (self : ConfigOptionParser)
    (env : list (string * string)) (k : string) : option string :=
  match from_environment env k with
  | Some v => Some v
  | None =>
      match from_section self (name self) k with
      | Some v => Some v
      | None => from_section self "global" k
      end
  end.

(** Lines 121-141 over a given list of items. *)
Definition update_defaults_from (defaults : loc) (items : list (string * string))
    : M loc :=
  for_each (update_defaults_item defaults) items ;;;
  ret defaults.

(** The destinations of the option objects. *)
Definition dests (opts : list Option) : gset (option string) :=
  list_to_set (map dest opts).

(** The exit status of the process when the exception is not caught:
    the code of a [SystemExit], and 1 after the traceback of any other
    exception. *)
Definition exit_status (e : exn) : Z :=
  match e with
  | SystemExit code => code
  | _ => 1%Z
  end.

End Resolution.

(** ** The schema of the main parser (lines 192-319) *)

Section MainParser.

Context {Float : Type}.

Local Abbreviation pyval := (pyval Float).
Local Abbreviation Option := (Option Float).

(** The constructor of [optparse.Option], for the attributes the main parser
    gives: the option strings are sorted into short and long ones, an
    untyped [store] or [append] option gets the type [string] (or
    [choice] with choices), and the actions that take a value get
    [nargs = 1]. *)
Definition make_option (opts : list string) (action : Action)
    (type : option opt_type) (dest : string) (default : option pyval)
    (choices : list string) : Option :=
  let takes_value :=
    Action_eqb action store || Action_eqb action append in
  mkOption
    (filter (fun s => String.length s = 2) opts)
    (filter (fun s => String.length s ≠ 2) opts)
    action
    (match type with
     | Some t => Some t
     | None =>
         if takes_value
         then Some (match choices with [] => string_t | _ => choice end)
         else None
     end)
    (Some dest)
    default
    (if takes_value || Action_eqb action callback then Some 1%Z else None)
    choices.

(** The parser under construction: its own [option_list], the
    [option_list] of the group 'General options', and the [defaults]
    table the two share. *)
Record Builder := mkBuilder {
  own_options : list Option;
  group_options : list Option;
  seeded : gmap (option string) pyval
}.

(** What [OptionContainer.add_option] does to [defaults]. *)
Definition seed_default (o : Option) (d : gmap (option string) pyval)
    : gmap (option string) pyval :=
  match dest o with
  | None => d
  | Some _ =>
      match default o with
      | Some v => <[dest o := v]> d
      | None =>
          match d !! dest o with
          | Some _ => d
          | None => <[dest o := PNone]> d
          end
      end
  end.

Definition padd (o : Option) (b : Builder) : Builder :=
  mkBuilder (own_options b ++ [o]) (group_options b) (seed_default o (seeded b)).

Definition gadd (o : Option) (b : Builder) : Builder :=
  mkBuilder (own_options b) (group_options b ++ [o]) (seed_default o (seeded b)).

(** [default_log_file] comes from [pip.locations]. *)
Definition main_parser_builder (default_log_file : string) : Builder :=
  let b := mkBuilder [] [] ∅ in
  let b := gadd (make_option ["-h"; "--help"] store_true None "help" None []) b in
  let b := padd (make_option ["--require-virtualenv"; "--require-venv"]
                   store_true None "require_venv" (Some (PBool false)) []) b in
  let b := gadd (make_option ["-v"; "--verbose"] count None "verbose" (Some (PInt 0)) []) b in
  let b := gadd (make_option ["-V"; "--version"] store_true None "version" None []) b in
  let b := gadd (make_option ["-q"; "--quiet"] count None "quiet" (Some (PInt 0)) []) b in
  let b := gadd (make_option ["--log"] store None "log" None []) b in
  let b := padd (make_option ["--log-explicit-levels"] store_true None
                   "log_explicit_levels" (Some (PBool false)) []) b in
  let b := padd (make_option ["--local-log"; "--log-file"] store None
                   "log_file" (Some (PStr default_log_file)) []) b in
  let b := padd (make_option ["--no-input"] store_true None "no_input"
                   (Some (PBool false)) []) b in
  let b := gadd (make_option ["--proxy"] store (Some string_t) "proxy"
                   (Some (PStr "")) []) b in
  let b := gadd (make_option ["--timeout"; "--default-timeout"] store
                   (Some (builtin float_t)) "timeout" (Some (PInt 15)) []) b in
  let b := padd (make_option ["--default-vcs"] store (Some string_t)
                   "default_vcs" (Some (PStr "")) []) b in
  let b := padd (make_option ["--skip-requirements-regex"] store (Some string_t)
                   "skip_requirements_regex" (Some (PStr "")) []) b in
  let b := gadd (make_option ["--exists-action"] append (Some choice)
                   "exists_action" (Some (PList [])) ["s"; "i"; "w"; "b"]) b in
  b.

(** [create_main_parser()] in a process with the configuration file
    contents [cfg] and the environment [env]: the parser is named
    'global', its defaults table is the first dictionary of the store and
    [_get_all_options()] lists the parser's own options before the
    group's. *)
Definition create_main_parser (default_log_file : string)
    (cfg : list (string * list (string * string)))
    (env : list (string * string)) : ConfigOptionParser * State Float :=
  let b := main_parser_builder default_log_file in
  (mkParser "global" cfg 0 true,
   mkState env (own_options b ++ group_options b) [seeded b] []).

End MainParser.

(** ** An instance of the builtins for the examples

    Floats are stood for by integers and only decimal literals without
    sign, point or exponent convert. *)

Fixpoint decimal_from (acc : Z) (s : string) : option Z :=
  match s with
  | EmptyString => Some acc
  | String c s' =>
      let n := nat_of_ascii c in
      if (48 <=? n)%nat && (n <=? 57)%nat
      then decimal_from (10 * acc + Z.of_nat (n - 48)) s'
      else None
  end.

#[global] Instance decimal_cvt : Builtins Z := fun what v =>
  match v with
  | PStr s =>
      match s, decimal_from 0 s with
      | String _ _, Some n =>
          match what with
          | int_t | long_t => Return (PInt n)
          | float_t | complex_t => Return (PFloat n)
          end
      | _, _ => Raise (ValueError v)
      end
  | _ => Raise TypeError
  end.

(** The main parser and the store of a process with the configuration
    file contents [cfg] and the environment [env], for the examples. *)
Definition main_parser (cfg : list (string * list (string * string)))
    : ConfigOptionParser :=
  fst (create_main_parser (Float := Z) "pip.log" cfg []).

Definition main_state (cfg : list (string * list (string * string)))
    (env : list (string * string)) : State Z :=
  snd (create_main_parser "pip.log" cfg env).

(** Three options of the main parser. *)
Definition timeout_option : Option Z :=
  make_option ["--timeout"; "--default-timeout"] store
    (Some (builtin float_t)) "timeout" (Some (PInt 15)) [].

Definition log_file_option : Option Z :=
  make_option ["--local-log"; "--log-file"] store None
    "log_file" (Some (PStr "pip.log")) [].

Definition no_input_option : Option Z :=
  make_option ["--no-input"] store_true None "no_input" (Some (PBool false)) [].

(** A parser with one option, whose default is written as a string:
    --timeout of type float with the default '15'. *)
Definition string_default_option : Option Z :=
  make_option ["--timeout"] store (Some (builtin float_t)) "timeout"
    (Some (PStr "15")) [].

Definition string_default_parser : ConfigOptionParser :=
  mkParser "global" [] 0 true.

Definition string_default_state : State Z :=
  mkState [] [string_default_option] [seed_default string_default_option ∅] [].

(** The raw key the specification describes for a selected variable: the
    name without its first [length prefix] characters, lower-cased. *)
Definition spec_environ_key (prefix name : string) : string :=
  PyStr.lower (String.substring (String.length prefix)
                 (String.length name - String.length prefix) name).

(** ** The rest of the module *)

Section Rest.

Context {Float : Type} `{!Builtins Float}.

Local Abbreviation pyval := (pyval Float).
Local Abbreviation outcome := (outcome Float).
Local Abbreviation Option := (Option Float).
Local Abbreviation State := (State Float).

(** The option string that an [OptionValueError] of [check_builtin] or
    [check_choice] names. *)
Definition ove_opt (m : ove_msg Float) : string :=
  match m with
  | InvalidValue opt _ _ => opt
  | InvalidChoice opt _ _ => opt
  end.



(** [os.environ.get(key)] on the items of the environment. *)
Definition environ_get (env : list (string * string)) (key : string)
    : option string :=
  PyDict.get key env.

(** Lines 103-107.  [exists] is [os.path.exists] on the file system of
    the process and [default_config_file] comes from [pip.locations]. *)
Definition get_config_files (env : list (string * string))
    (exists_ : string -> bool) (default_config_file : string) : list string :=
  match environ_get env "PIP_CONFIG_FILE" with
  | Some config_file =>
      if negb (String.eqb config_file "") && exists_ config_file
      then [config_file]
      else [default_config_file]
  | None => [default_config_file]
  end.

(** [fmt % arg] for one string argument, on the formats whose
    conversions are [%s] and [%%], the ones this module writes: [%s] is
    replaced by the argument as it is, once; a format without [%s] or
    with two of them is a [TypeError].  Any other conversion is outside
    the model, which answers [ValueError] for it. *)
Fixpoint str_mod_from (used : bool) (fmt arg : string) : outcome string :=
  match fmt with
  | EmptyString => if used then Return "" else Raise TypeError
  | String c fmt' =>
      if Ascii.eqb c "%" then
        match fmt' with
        | EmptyString => Raise (ValueError (PStr fmt))
        | String c' fmt'' =>
            if Ascii.eqb c' "s" then
              if used then Raise TypeError
              else
                match str_mod_from true fmt'' arg with
                | Return r => Return (String.append arg r)
                | Raise e => Raise e
                end
            else if Ascii.eqb c' "%" then
              match str_mod_from used fmt'' arg with
              | Return r => Return (String "%" r)
              | Raise e => Raise e
              end
            else Raise (ValueError (PStr fmt))
        end
      else
        match str_mod_from used fmt' arg with
        | Return r => Return (String c r)
        | Raise e => Raise e
        end
  end.

Definition str_mod (fmt arg : string) : outcome string :=
  str_mod_from false fmt arg.

(** [Option.takes_value] *)
Definition takes_value (option : Option) : bool :=
  match type option with
  | Some _ => true
  | None => false
  end.

(** [''.join(opts)] *)
Definition str_join (opts : list string) : string :=
  fold_right String.append "" opts.

(** Lines 30-49.  [metavar] is [option.metavar], an attribute the rest
    of the module does not read. *)
Definition _format_option_strings (option : Option)
    (metavar : Datatypes.option string) (mvarfmt optsep : string)
    : outcome string :=
  let opts := [] in
  let opts :=
    match _short_opts option with
    | s :: _ => opts ++ [s]
    | [] => opts
    end in
  let opts :=
    match _long_opts option with
    | s :: _ => opts ++ [s]
    | [] => opts
    end in
  let opts :=
    match opts with
    | a :: (_ :: _) as rest => a :: optsep :: rest
    | _ => opts
    end in
  if takes_value option then
    let metavar :=
      match metavar with
      | Some (String c m) => Return (String c m)
      | _ =>
          match dest option with
          | Some dn => Return (PyStr.lower dn)
          | None => Raise AttributeError
          end
      end in
    match metavar with
    | Raise e => Raise e
    | Return metavar =>
        match str_mod mvarfmt metavar with
        | Raise e => Raise e
        | Return shown => Return (str_join (opts ++ [shown]))
        end
    end
  else Return (str_join opts).

(** Lines 27-28. *)
Definition format_option_strings (option : Option)
    (metavar : Datatypes.option string) : outcome string :=
  _format_option_strings option metavar " <%s>" ", ".

(** Lines 51-53. *)
Definition format_heading (heading : string) : string :=
  if String.eqb heading "Options" then ""
  else String.append heading (String ":" (String (ascii_of_nat 10) "")).

(** Lines 55-63; [description] is [self.parser.description]. *)
Definition format_usage (description : option string) (usage : string)
    : outcome string :=
  match str_mod "Usage: %s" usage with
  | Raise e => Raise e
  | Return msg =>
      match description with
      | Some (String _ _) => Return (String.append msg (String (ascii_of_nat 10) ""))
      | _ => Return msg
      end
  end.

(** The assignment of line 140 that the loop body makes on an item, when
    it makes one: the destination and the coerced value. *)
Definition item_write (opts : list Option) (kv : string * string)
    : option (option string * pyval) :=
  match get_option opts (fst kv) with
  | None => None
  | Some (_, o) =>
      if String.eqb (snd kv) "" then None
      else
        match coerced_value o (fst kv) (snd kv) with
        | Return val => Some (dest o, val)
        | Raise _ => None
        end
  end.

(** The items on which the loop body does not raise. *)
Definition item_passes (opts : list Option) (kv : string * string) : bool :=
  match get_option opts (fst kv) with
  | None => true
  | Some (_, o) =>
      String.eqb (snd kv) "" ||
      match coerced_value o (fst kv) (snd kv) with
      | Return _ => true
      | Raise _ => false
      end
  end.

(** The items that leave the option objects as they are: the value is
    empty, the key is not known, or the option is an [append] one or has
    [nargs = 1] already. *)
Definition nargs_settled (opts : list Option) (kv : string * string) : bool :=
  String.eqb (snd kv) "" ||
  match get_option opts (fst kv) with
  | None => true
  | Some (_, o) =>
      Action_eqb (action o) append || bool_decide (nargs o = Some 1%Z)
  end.

(** The assignments of a list of items, applied in order. *)
Definition apply_writes (opts : list Option) (l : list (string * string))
    (m : gmap (option string) pyval) : gmap (option string) pyval :=
  fold_left
    (fun m kv =>
       match item_write opts kv with
       | Some (dn, val) => <[dn := val]> m
       | None => m
       end)
    l m.

End Rest.

(** * Properties *)

(** ** Strings and key normalization *)

Example normalize_key_timeout : normalize_key "default_timeout" = "--default-timeout".
Proof. reflexivity. Qed.

Example normalize_key_empty : normalize_key "" = "--".
Proof. reflexivity. Qed.

Example replace_nonoverlapping : PyStr.replace "aaa" "aa" "b" = "ba".
Proof. reflexivity. Qed.

Example split_lines :
  PyStr.split (" s" ++ String (ascii_of_nat 10) "  i w ") = ["s"; "i"; "w"].
Proof. reflexivity. Qed.

Lemma prefix_empty (s : string) : String.prefix "" s = true.
Proof. now destruct s. Qed.

Lemma prefix_dashes_app (s : string) : PyStr.startswith ("--" ++ s) "--" = true.
Proof.
  unfold PyStr.startswith. simpl.
  destruct (ascii_dec "-" "-") as [_ | n]; [apply prefix_empty | now destruct n].
Qed.

Lemma occurs_app (c : ascii) (s t : string) :
  PyStr.occurs c (s ++ t) = PyStr.occurs c s || PyStr.occurs c t.
Proof.
  induction s as [| a s IH]; simpl; [reflexivity |].
  rewrite IH. now rewrite orb_assoc.
Qed.

(** Replacing one character by another is a map over the string. *)
Lemma replace_char_cons (a b c : ascii) (s : string) :
  PyStr.replace (String c s) (String a "") (String b "") =
  String (if Ascii.eqb a c then b else c)
         (PyStr.replace s (String a "") (String b "")).
Proof.
  unfold PyStr.replace. simpl.
  destruct (ascii_dec a c) as [-> | Hne].
  - rewrite Ascii.eqb_refl, prefix_empty. reflexivity.
  - destruct (Ascii.eqb_spec a c) as [-> | _]; [now destruct Hne | reflexivity].
Qed.

Lemma replace_char_removes (a b : ascii) (s : string) :
  a <> b ->
  PyStr.occurs a (PyStr.replace s (String a "") (String b "")) = false.
Proof.
  intros Hab. induction s as [| c s IH]; [reflexivity |].
  rewrite replace_char_cons. cbn [PyStr.occurs]. rewrite IH, orb_false_r.
  destruct (Ascii.eqb_spec a c) as [-> | Hac].
  - now apply Ascii.eqb_neq.
  - now apply Ascii.eqb_neq.
Qed.

Lemma replace_char_absent (a b : ascii) (s : string) :
  PyStr.occurs a s = false ->
  PyStr.replace s (String a "") (String b "") = s.
Proof.
  induction s as [| c s IH]; [reflexivity |].
  cbn [PyStr.occurs]. intros [Hc Hs]%orb_false_elim.
  rewrite replace_char_cons, Hc. now rewrite IH.
Qed.

(** A normalized key has no underscore and starts with two hyphens. *)
Lemma normalize_key_shape (key : string) :
  PyStr.occurs "_" (normalize_key key) = false /\
  PyStr.startswith (normalize_key key) "--" = true.
Proof.
  unfold normalize_key.
  pose proof (replace_char_removes "_" "-" key) as Hno.
  assert (Hne : "_"%char <> "-"%char) by discriminate.
  specialize (Hno Hne).
  destruct (PyStr.startswith (PyStr.replace key "_" "-") "--") eqn:Hpre;
    cbn [negb].
  - now split.
  - split; [| apply prefix_dashes_app].
    rewrite occurs_app. now rewrite Hno.
Qed.

Lemma normalize_key_fixed (key : string) :
  PyStr.occurs "_" key = false ->
  PyStr.startswith key "--" = true ->
  normalize_key key = key.
Proof.
  intros Hno Hpre. unfold normalize_key.
  rewrite (replace_char_absent "_" "-" key Hno). now rewrite Hpre.
Qed.

(** ** Dictionaries *)

Lemma get_set_eq (k v : string) (d : PyDict.t) :
  PyDict.get k (PyDict.set k v d) = Some v.
Proof.
  induction d as [| [k' v'] d IH]; simpl.
  - now rewrite String.eqb_refl.
  - destruct (String.eqb k k') eqn:E; simpl; rewrite E; [reflexivity | exact IH].
Qed.

Lemma get_set_ne (k k' v : string) (d : PyDict.t) :
  k <> k' -> PyDict.get k' (PyDict.set k v d) = PyDict.get k' d.
Proof.
  intros Hne. induction d as [| [k0 v0] d IH]; simpl.
  - destruct (String.eqb_spec k' k) as [-> | _]; [now destruct Hne | reflexivity].
  - destruct (String.eqb_spec k k0) as [-> | Hk]; simpl.
    + destruct (String.eqb_spec k' k0) as [-> | _]; [now destruct Hne | reflexivity].
    + now rewrite IH.
Qed.

Lemma get_None_keys (k : string) (d : PyDict.t) :
  PyDict.get k d = None <-> ~ In k (map fst d).
Proof.
  induction d as [| [k' v'] d IH]; simpl; [tauto |].
  destruct (String.eqb_spec k k') as [-> | Hk].
  - split; [discriminate | intros H; destruct H; now left].
  - rewrite IH. split; [intros H [E | HIn]; [now destruct Hk | tauto] | tauto].
Qed.

Lemma get_Some_In (k v : string) (d : PyDict.t) :
  PyDict.get k d = Some v -> In (k, v) d.
Proof.
  induction d as [| [k' v'] d IH]; simpl; [discriminate |].
  destruct (String.eqb_spec k k') as [-> | Hk]; [intros [= ->]; now left | auto].
Qed.

Lemma set_fresh (k v : string) (d : PyDict.t) :
  PyDict.get k d = None -> PyDict.set k v d = d ++ [(k, v)].
Proof.
  induction d as [| [k' v'] d IH]; simpl; [reflexivity |].
  destruct (String.eqb k k'); [discriminate |].
  intros H. now rewrite IH.
Qed.

Lemma set_keys (k v : string) (d : PyDict.t) :
  map fst (PyDict.set k v d) =
  match PyDict.get k d with
  | Some _ => map fst d
  | None => map fst d ++ [k]
  end.
Proof.
  induction d as [| [k' v'] d IH]; simpl; [reflexivity |].
  destruct (String.eqb k k'); simpl; [reflexivity |].
  rewrite IH. now destruct (PyDict.get k d).
Qed.

Lemma set_NoDup (k v : string) (d : PyDict.t) :
  NoDup (map fst d) -> NoDup (map fst (PyDict.set k v d)).
Proof.
  intros Hd. rewrite set_keys.
  destruct (PyDict.get k d) eqn:E; [exact Hd |].
  apply get_None_keys in E.
  apply NoDup_app. split_and!; [exact Hd | | apply NoDup_singleton].
  intros x Hx Hx'. apply list_elem_of_singleton in Hx'. subst x.
  apply E. now apply list_elem_of_In.
Qed.

(** Assigning the items of a dictionary, in order, to an empty
    dictionary rebuilds it. *)
Lemma fold_set_NoDup (l acc : PyDict.t) :
  NoDup (map fst (acc ++ l)) ->
  fold_left (fun n kv => PyDict.set (fst kv) (snd kv) n) l acc = acc ++ l.
Proof.
  revert acc. induction l as [| [k v] l IH]; intros acc Hnd; simpl.
  - now rewrite app_nil_r.
  - assert (Hk : PyDict.get k acc = None).
    { apply get_None_keys. intros HIn.
      rewrite map_app in Hnd. apply NoDup_app in Hnd as (_ & Hdis & _).
      apply (Hdis k); [now apply list_elem_of_In | simpl; left]. }
    rewrite (set_fresh k v acc Hk), IH.
    + now rewrite <- app_assoc.
    + now rewrite <- app_assoc.
Qed.

Lemma normalize_keys_invariant (P : PyDict.t -> Prop) :
  P [] ->
  (forall k v d, P d -> P (PyDict.set (normalize_key k) v d)) ->
  forall items, P (normalize_keys items).
Proof.
  intros H0 Hstep items. unfold normalize_keys.
  assert (H : forall acc, P acc ->
    P (fold_left (fun n kv => PyDict.set (normalize_key (fst kv)) (snd kv) n)
         items acc)).
  { induction items as [| [k v] items IH]; intros acc Hacc; simpl; auto. }
  now apply H.
Qed.

Lemma set_Forall_keys (P : string -> Prop) (k v : string) (d : PyDict.t) :
  P k -> Forall (fun kv => P (fst kv)) d ->
  Forall (fun kv => P (fst kv)) (PyDict.set k v d).
Proof.
  intros Hk. induction 1 as [| [k' v'] d Hx Hd IH]; simpl.
  - now repeat constructor.
  - destruct (String.eqb k k'); constructor; auto.
Qed.

(** ** C5: key normalization is idempotent *)

(** C5. Normalizing a normalized key returns it unchanged, for every key
    string; and normalizing the keys of an already normalized dictionary
    returns the same dictionary. *)
Theorem normalize_keys_idempotent :
  (forall key : string, normalize_key (normalize_key key) = normalize_key key) /\
  (forall items : list (string * string),
     normalize_keys (PyDict.items (normalize_keys items)) = normalize_keys items).
Proof.
  assert (Hkey : forall key, normalize_key (normalize_key key) = normalize_key key).
  { intros key. destruct (normalize_key_shape key) as [Hno Hpre].
    now apply normalize_key_fixed. }
  split; [exact Hkey |].
  intros items. unfold PyDict.items.
  assert (Hnd : NoDup (map fst (normalize_keys items))).
  { apply (normalize_keys_invariant (fun d => NoDup (map fst d))).
    - constructor.
    - intros k v d. apply set_NoDup. }
  assert (Hfix : Forall (fun kv => normalize_key (fst kv) = fst kv)
                   (normalize_keys items)).
  { apply (normalize_keys_invariant
             (Forall (fun kv => normalize_key (fst kv) = fst kv))).
    - constructor.
    - intros k v d. apply (set_Forall_keys (fun k => normalize_key k = k)).
      apply Hkey. }
  set (d := normalize_keys items) in *. clearbody d.
  unfold normalize_keys at 1.
  rewrite <- (fold_set_NoDup d []) at 2 by exact Hnd.
  generalize (@nil (string * string)) as acc.
  induction Hfix as [| [k v] d Hk Hd IH]; intros acc; simpl; [reflexivity |].
  simpl in Hk. rewrite Hk. apply IH. now inversion Hnd.
Qed.

(** ** The loop of [update_defaults] *)

Section Properties.

Context {Float : Type} `{!Builtins Float}.

Local Abbreviation pyval := (pyval Float).
Local Abbreviation exn := (exn Float).
Local Abbreviation outcome := (outcome Float).
Local Abbreviation Option := (Option Float).
Local Abbreviation State := (State Float).
Local Abbreviation M := (M Float).

(** The loop body as a function of the state: a key that is not known
    and an empty value change nothing; otherwise [nargs] is set, and the
    coerced value is stored, or an [OptionValueError] is printed and
    turned into [SystemExit 3], or another exception passes. *)
Lemma update_defaults_item_eq (d : loc) (k v : string) (st : State) :
  update_defaults_item d (k, v) st =
  match get_option (options st) k with
  | None => (Return tt, st)
  | Some (i, o) =>
      if String.eqb v "" then (Return tt, st)
      else
        let st1 := after_nargs i o st in
        match coerced_value o k v with
        | Return val =>
            (Return tt,
             mkState (environ st1) (options st1)
                     (alter (insert (dest o) val) d (heap st1)) (stdout st1))
        | Raise (OptionValueError e) =>
            (Raise (SystemExit 3),
             mkState (environ st1) (options st1) (heap st1)
                     (stdout st1 ++ [ConfigurationError e]))
        | Raise e => (Raise e, st1)
        end
  end.
Proof.
  unfold update_defaults_item, coerced_value, after_nargs.
  unfold bind, get_state. cbn [fst snd].
  destruct (get_option (options st) k) as [[i o] |]; [| reflexivity].
  destruct (String.eqb v ""); [reflexivity |].
  destruct (Action_eqb (action o) append) eqn:Happ.
  - unfold ret, lift, try_except_OptionValueError, dict_setitem, print,
      sys_exit, raise, bind.
    destruct (is_flag_action (action o)).
    + cbn. reflexivity.
    + destruct (convert_value o k _) as [val | []];
        reflexivity.
  - unfold ret, lift, try_except_OptionValueError, dict_setitem, print,
      sys_exit, raise, bind, set_option. cbn [action set_nargs dest].
    destruct (is_flag_action (action o)).
    + unfold strtobool.
      destruct (existsb _ true_tokens);
        [| destruct (existsb _ false_tokens); [| reflexivity]].
      all: destruct (convert_value _ k _) as [val | []];
        reflexivity.
    + destruct (convert_value _ k _) as [val | []];
        reflexivity.
Qed.

(** *** Loops *)

Lemma for_each_cons {X} (body : X -> M unit) (x : X) (l : list X) (st : State) :
  for_each body (x :: l) st =
  match body x st with
  | (Return _, st') => for_each body l st'
  | (Raise e, st') => (Raise e, st')
  end.
Proof. reflexivity. Qed.

Lemma for_each_app {X} (body : X -> M unit) (l1 l2 : list X) (st : State) :
  for_each body (l1 ++ l2) st =
  match for_each body l1 st with
  | (Return _, st') => for_each body l2 st'
  | (Raise e, st') => (Raise e, st')
  end.
Proof.
  revert st. induction l1 as [| x l1 IH]; intros st; [reflexivity |].
  rewrite <- app_comm_cons, !for_each_cons.
  destruct (body x st) as [[[] | e] st']; [apply IH | reflexivity].
Qed.

(** An invariant of the body that relates a state to its successor, when
    reflexive and transitive, relates the ends of the loop. *)
Lemma for_each_relates {X} (R : State -> State -> Prop) (body : X -> M unit) :
  (forall st, R st st) ->
  (forall st1 st2 st3, R st1 st2 -> R st2 st3 -> R st1 st3) ->
  (forall x st, R st (snd (body x st))) ->
  forall l st, R st (snd (for_each body l st)).
Proof.
  intros Hrefl Htrans Hbody l. induction l as [| x l IH]; intros st.
  - apply Hrefl.
  - rewrite for_each_cons. specialize (Hbody x st).
    destruct (body x st) as [[[] | e] st']; simpl in *; [| exact Hbody].
    eapply Htrans; [exact Hbody | apply IH].
Qed.

(** Items on which the body does nothing, in every state the loop can
    be in, can be left out. *)
Lemma for_each_filter {X} (I : State -> Prop) (P : X -> bool) (body : X -> M unit) :
  (forall x st, I st -> I (snd (body x st))) ->
  (forall x st, I st -> P x = false -> body x st = (Return tt, st)) ->
  forall l st, I st -> for_each body l st = for_each body (List.filter P l) st.
Proof.
  intros Hinv Hskip l. induction l as [| x l IH]; intros st Hst; [reflexivity |].
  cbn [List.filter]. destruct (P x) eqn:HP.
  - rewrite !for_each_cons. specialize (Hinv x st Hst).
    destruct (body x st) as [[[] | e] st']; [now apply IH | reflexivity].
  - rewrite for_each_cons, (Hskip x st Hst HP). now apply IH.
Qed.

(** *** Option objects under [nargs_update] *)

Lemma Action_eqb_eq (a b : Action) : Action_eqb a b = true <-> a = b.
Proof. destruct a, b; simpl; split; congruence. Qed.

Lemma nargs_update_refl (o : Option) : nargs_update o o.
Proof. now left. Qed.

Lemma nargs_update_trans (o1 o2 o3 : Option) :
  nargs_update o1 o2 -> nargs_update o2 o3 -> nargs_update o1 o3.
Proof.
  intros [-> | [Ha ->]] [-> | [Hb ->]]; try (now left); try (now right).
Qed.

(** [nargs_update] changes no field but [nargs]. *)
Lemma nargs_update_fields (o o' : Option) :
  nargs_update o o' ->
  _short_opts o' = _short_opts o /\ _long_opts o' = _long_opts o /\
  action o' = action o /\ type o' = type o /\ dest o' = dest o /\
  default o' = default o /\ choices o' = choices o.
Proof. intros [-> | [_ ->]]; repeat split. Qed.

Lemma coerced_value_nargs_update (o o' : Option) (k v : string) :
  nargs_update o o' -> coerced_value o' k v = coerced_value o k v.
Proof.
  intros [-> | [Ha ->]]; [reflexivity |].
  unfold coerced_value. cbn [action set_nargs].
  destruct (Action_eqb (action o) append) eqn:E; [| reflexivity].
  apply Action_eqb_eq in E. contradiction.
Qed.

Lemma options_step_refl (opts : list Option) : Forall2 nargs_update opts opts.
Proof. induction opts; constructor; auto using nargs_update_refl. Qed.

Lemma options_step_trans (l1 l2 l3 : list Option) :
  Forall2 nargs_update l1 l2 -> Forall2 nargs_update l2 l3 ->
  Forall2 nargs_update l1 l3.
Proof.
  intros H12. revert l3. induction H12 as [| x y l1 l2 Hxy _ IH]; intros l3 H23.
  - inversion H23. constructor.
  - inversion H23 as [| y' z l2' l3' Hyz Hrest]; subst.
    constructor; [eapply nargs_update_trans; eauto | now apply IH].
Qed.

Lemma list_find_Forall2 {A} (P : A -> Prop) `{forall x, Decision (P x)}
    (R : A -> A -> Prop) (l l' : list A) :
  (forall x y, R x y -> (P x <-> P y)) ->
  Forall2 R l l' ->
  option_Forall2 (fun a b => fst a = fst b /\ R (snd a) (snd b))
    (list_find P l) (list_find P l').
Proof.
  intros HP. induction 1 as [| x y l l' Hxy _ IH]; cbn.
  - constructor.
  - destruct (decide (P x)) as [Hx | Hx], (decide (P y)) as [Hy | Hy].
    + now constructor.
    + destruct Hy. now apply (HP x y).
    + destruct Hx. now apply (HP x y).
    + destruct IH as [[i a] [j b] [Hij Hab] |]; cbn in *; constructor.
      cbn. split; [congruence | exact Hab].
Qed.

(** The option a key designates does not depend on the [nargs] set so
    far. *)
Lemma get_option_step (opts opts' : list Option) (k : string) :
  Forall2 nargs_update opts opts' ->
  option_Forall2 (fun a b => fst a = fst b /\ nargs_update (snd a) (snd b))
    (get_option opts k) (get_option opts' k).
Proof.
  intros Hstep. unfold get_option.
  pose proof (list_find_Forall2 (fun o => k ∈ _short_opts o) nargs_update
                opts opts') as Hs.
  pose proof (list_find_Forall2 (fun o => k ∈ _long_opts o) nargs_update
                opts opts') as Hl.
  destruct Hs as [a b Hab |].
  - intros x y Hxy. apply nargs_update_fields in Hxy as (-> & _). reflexivity.
  - exact Hstep.
  - now constructor.
  - apply Hl; [| exact Hstep].
    intros x y Hxy. apply nargs_update_fields in Hxy as (_ & -> & _). reflexivity.
Qed.

Lemma get_option_lookup (opts : list Option) (k : string) (i : nat) (o : Option) :
  get_option opts k = Some (i, o) -> opts !! i = Some o.
Proof.
  unfold get_option.
  destruct (list_find _ opts) as [[j x] |] eqn:E.
  - intros [= -> ->]. now apply list_find_Some in E.
  - intros E'. now apply list_find_Some in E'.
Qed.

Lemma known_key_step (opts opts' : list Option) (kv : string * string) :
  Forall2 nargs_update opts opts' -> known_key opts' kv = known_key opts kv.
Proof.
  intros Hstep. unfold known_key.
  now destruct (get_option_step opts opts' (fst kv) Hstep).
Qed.

Lemma writes_dest_step (opts opts' : list Option) (dn : option string)
    (kv : string * string) :
  Forall2 nargs_update opts opts' ->
  writes_dest opts' dn kv = writes_dest opts dn kv.
Proof.
  intros Hstep. unfold writes_dest. f_equal.
  destruct (get_option_step opts opts' (fst kv) Hstep)
    as [[i o] [j o'] [_ Hoo] |]; [| reflexivity].
  cbn in Hoo. apply nargs_update_fields in Hoo as (_ & _ & _ & _ & -> & _).
  reflexivity.
Qed.

Lemma no_writer_step (opts opts' : list Option) (dn : option string)
    (l : list (string * string)) :
  Forall2 nargs_update opts opts' ->
  forallb (fun kv => negb (writes_dest opts' dn kv)) l
  = forallb (fun kv => negb (writes_dest opts dn kv)) l.
Proof.
  intros Hstep. induction l as [| kv l IH]; [reflexivity |].
  cbn [forallb]. now rewrite IH, (writes_dest_step opts opts' dn kv Hstep).
Qed.

(** *** One step of the loop *)

Lemma evolves_refl (d : loc) (st : State) : evolves d st st.
Proof. unfold evolves. auto using options_step_refl. Qed.

Lemma evolves_trans (d : loc) (st1 st2 st3 : State) :
  evolves d st1 st2 -> evolves d st2 st3 -> evolves d st1 st3.
Proof.
  intros (He & Ho & Hl & Hh) (He' & Ho' & Hl' & Hh'). unfold evolves.
  split_and!.
  - congruence.
  - eauto using options_step_trans.
  - congruence.
  - intros l Hne. now rewrite Hh', Hh.
Qed.

Lemma after_nargs_step (i : nat) (o : Option) (st : State) :
  options st !! i = Some o ->
  environ (after_nargs i o st) = environ st /\
  Forall2 nargs_update (options st) (options (after_nargs i o st)) /\
  heap (after_nargs i o st) = heap st /\
  stdout (after_nargs i o st) = stdout st.
Proof.
  intros Hi. unfold after_nargs.
  destruct (Action_eqb (action o) append) eqn:E; cbn.
  - auto using options_step_refl.
  - split_and!; try reflexivity.
    rewrite <- (list_insert_id (options st) i o Hi) at 1.
    apply Forall2_insert; [apply options_step_refl |].
    right. split; [| reflexivity].
    intros Ha. apply Action_eqb_eq in Ha. congruence.
Qed.

Lemma item_evolves (d : loc) (kv : string * string) (st : State) :
  evolves d st (snd (update_defaults_item d kv st)).
Proof.
  destruct kv as [k v]. rewrite update_defaults_item_eq.
  destruct (get_option (options st) k) as [[i o] |] eqn:Hget;
    [| apply evolves_refl].
  destruct (String.eqb v ""); [apply evolves_refl |].
  apply get_option_lookup in Hget.
  destruct (after_nargs_step i o st Hget) as (He & Ho & Hh & _).
  cbv zeta. unfold evolves.
  destruct (coerced_value o k v) as [val | e].
  - cbn. rewrite Hh.
    split_and!; [exact He | exact Ho | apply length_alter |].
    intros l Hne. now apply list_lookup_alter_ne.
  - assert (Hst1 : evolves d st (after_nargs i o st)).
    { unfold evolves. rewrite Hh. auto. }
    destruct e; exact Hst1.
Qed.

(** An item that does not reach line 140 with the destination [dn]
    leaves the binding of [dn] alone, whatever its outcome. *)
Lemma item_keeps_dest (d : loc) (kv : string * string) (dn : option string)
    (st : State) :
  writes_dest (options st) dn kv = false ->
  deref (snd (update_defaults_item d kv st)) d !! dn = deref st d !! dn.
Proof.
  destruct kv as [k v]. unfold writes_dest. cbn [fst snd].
  rewrite update_defaults_item_eq.
  destruct (get_option (options st) k) as [[i o] |] eqn:Hget; [| reflexivity].
  destruct (String.eqb v ""); [reflexivity |]. cbn [negb andb].
  intros Hdn. apply bool_decide_eq_false in Hdn.
  apply get_option_lookup in Hget.
  destruct (after_nargs_step i o st Hget) as (_ & _ & Hh & _).
  cbv zeta.
  assert (Hst1 : deref (after_nargs i o st) d = deref st d).
  { unfold deref. now rewrite Hh. }
  destruct (coerced_value o k v) as [val | e].
  - cbn. unfold deref. cbn. rewrite Hh, list_lookup_alter_eq.
    destruct (heap st !! d) as [m |]; cbn; [| reflexivity].
    now apply lookup_insert_ne.
  - destruct e; cbn; now rewrite <- Hst1.
Qed.

(** The item that reaches line 140 binds the destination to the coerced
    value. *)
Lemma item_writes_dest (d : loc) (k v : string) (i : nat) (o : Option)
    (st st' : State) :
  d < length (heap st) ->
  get_option (options st) k = Some (i, o) ->
  v <> "" ->
  update_defaults_item d (k, v) st = (Return tt, st') ->
  exists val, coerced_value o k v = Return val /\
              deref st' d !! dest o = Some val.
Proof.
  intros Hd Hget Hv. rewrite update_defaults_item_eq, Hget.
  destruct (String.eqb_spec v "") as [-> | _]; [now destruct Hv |].
  apply get_option_lookup in Hget.
  destruct (after_nargs_step i o st Hget) as (_ & _ & Hh & _).
  cbv zeta.
  destruct (coerced_value o k v) as [val | e].
  - intros [= <-]. exists val. split; [reflexivity |].
    unfold deref. cbn. rewrite Hh, list_lookup_alter_eq.
    destruct (lookup_lt_is_Some_2 (heap st) d Hd) as [m ->]. cbn.
    apply lookup_insert_eq.
  - destruct e; discriminate.
Qed.

(** *** The whole loop *)

Lemma update_defaults_eq (self : ConfigOptionParser) (d : loc) (st : State) :
  update_defaults self d st =
  match for_each (update_defaults_item d)
          (PyDict.items (merged_config self (environ st))) st with
  | (Return _, st') => (Return d, st')
  | (Raise e, st') => (Raise e, st')
  end.
Proof.
  unfold update_defaults, bind, get_state, ret.
  now destruct (for_each _ _ st) as [[[] | e] st'].
Qed.

Lemma loop_evolves (d : loc) (l : list (string * string)) (st : State) :
  evolves d st (snd (for_each (update_defaults_item d) l st)).
Proof.
  apply (for_each_relates (evolves d)).
  - apply evolves_refl.
  - apply evolves_trans.
  - intros x st0. apply item_evolves.
Qed.

Lemma update_defaults_evolves (self : ConfigOptionParser) (d : loc) (st : State) :
  evolves d st (snd (update_defaults self d st)).
Proof.
  rewrite update_defaults_eq.
  pose proof (loop_evolves d (PyDict.items (merged_config self (environ st))) st)
    as H0.
  now destruct (for_each _ _ st) as [[[] | e] st'].
Qed.

(** Items that do not write [dn] leave its binding alone. *)
Lemma loop_keeps_dest (d : loc) (dn : option string) (l : list (string * string)) :
  forall st : State,
    forallb (fun kv => negb (writes_dest (options st) dn kv)) l = true ->
    deref (snd (for_each (update_defaults_item d) l st)) d !! dn
    = deref st d !! dn.
Proof.
  induction l as [| kv l IH]; intros st Hall; [reflexivity |].
  cbn [forallb] in Hall. apply andb_true_iff in Hall as [Hkv Hl].
  apply negb_true_iff in Hkv.
  rewrite for_each_cons.
  pose proof (item_keeps_dest d kv dn st Hkv) as Hkeep.
  pose proof (item_evolves d kv st) as (_ & Ho & _).
  destruct (update_defaults_item d kv st) as [[[] | e] st']; cbn in *;
    [| exact Hkeep].
  rewrite IH; [exact Hkeep |].
  now rewrite (no_writer_step (options st) (options st') dn l Ho).
Qed.

Lemma update_defaults_from_eq (self : ConfigOptionParser) (d : loc) (st : State) :
  update_defaults self d st =
  update_defaults_from d (PyDict.items (merged_config self (environ st))) st.
Proof. reflexivity. Qed.

Lemma options_step_item (d : loc) (st0 : State) (x : string * string) (st : State) :
  Forall2 nargs_update (options st0) (options st) ->
  Forall2 nargs_update (options st0)
    (options (snd (update_defaults_item d x st))).
Proof.
  intros H0. destruct (item_evolves d x st) as (_ & Ho & _).
  eauto using options_step_trans.
Qed.

Lemma dests_step (opts opts' : list Option) :
  Forall2 nargs_update opts opts' -> dests opts' = dests opts.
Proof.
  unfold dests. induction 1 as [| o o' l l' Hoo _ IH]; [reflexivity |].
  cbn. apply nargs_update_fields in Hoo as (_ & _ & _ & _ & -> & _).
  now rewrite IH.
Qed.

Lemma item_dom (d : loc) (kv : string * string) (st : State) :
  dom (deref (snd (update_defaults_item d kv st)) d)
  ⊆ dom (deref st d) ∪ dests (options st).
Proof.
  destruct kv as [k v]. rewrite update_defaults_item_eq.
  destruct (get_option (options st) k) as [[i o] |] eqn:Hget;
    [| set_solver].
  destruct (String.eqb v ""); [set_solver |].
  apply get_option_lookup in Hget.
  destruct (after_nargs_step i o st Hget) as (_ & _ & Hh & _).
  cbv zeta.
  assert (Hst1 : deref (after_nargs i o st) d = deref st d).
  { unfold deref. now rewrite Hh. }
  destruct (coerced_value o k v) as [val | e].
  - cbn. unfold deref. cbn. rewrite Hh, list_lookup_alter_eq.
    destruct (heap st !! d) as [m |]; cbn; [| set_solver].
    rewrite dom_insert.
    assert (dest o ∈ dests (options st)).
    { unfold dests. apply elem_of_list_to_set, list_elem_of_fmap.
      exists o. split; [reflexivity |]. eapply list_elem_of_lookup_2, Hget. }
    set_solver.
  - destruct e; cbn; rewrite <- Hst1; set_solver.
Qed.

(** ** C3: unknown keys are ignored *)

(** C3. The keys of the merged mapping that designate no option are
    ignored: resolution is the loop over the known keys alone (the same
    outcome, and the same option objects, dictionaries and output), and
    every name bound in the defaults after the loop was bound before it
    or is the destination of an option. *)
Theorem unknown_keys_ignored (self : ConfigOptionParser) (d : loc) (st : State) :
  update_defaults self d st =
  update_defaults_from d
    (List.filter (known_key (options st))
       (PyDict.items (merged_config self (environ st)))) st /\
  dom (deref (snd (update_defaults self d st)) d)
  ⊆ dom (deref st d) ∪ dests (options st).
Proof.
  split.
  - rewrite update_defaults_from_eq. unfold update_defaults_from, bind.
    rewrite <- (for_each_filter
                  (fun st' => Forall2 nargs_update (options st) (options st'))
                  (known_key (options st)) (update_defaults_item d)).
    + reflexivity.
    + intros x st1. apply options_step_item.
    + intros [k v] st1 Hst1 Hunknown.
      rewrite <- (known_key_step _ _ (k, v) Hst1) in Hunknown.
      rewrite update_defaults_item_eq. unfold known_key in Hunknown.
      cbn [fst] in Hunknown.
      now destruct (get_option (options st1) k).
    + apply options_step_refl.
  - rewrite update_defaults_eq.
    pose proof (for_each_relates
      (fun st1 st2 =>
         Forall2 nargs_update (options st1) (options st2) /\
         dom (deref st2 d) ⊆ dom (deref st1 d) ∪ dests (options st1))
      (update_defaults_item d)) as Hloop.
    destruct (Hloop) with
      (l := PyDict.items (merged_config self (environ st))) (st := st)
      as [_ Hdom].
    + intros st1. split; [apply options_step_refl | set_solver].
    + intros st1 st2 st3 [Ho12 Hd12] [Ho23 Hd23].
      split; [eauto using options_step_trans |].
      rewrite (dests_step _ _ Ho12) in Hd23. set_solver.
    + intros x st1. split; [| apply item_dom].
      apply options_step_item, options_step_refl.
    + now destruct (for_each _ _ st) as [[[] | e] st'].
Qed.

(** ** The merge of the sources *)

Lemma update_cons (d : PyDict.t) (k v : string) (o : PyDict.t) :
  PyDict.update d ((k, v) :: o) = PyDict.update (PyDict.set k v d) o.
Proof. reflexivity. Qed.

(** Looking a key up after [d.update(o)]: the value of [o] if it has
    the key, else the one of [d]. *)
Lemma get_update (k : string) (o : PyDict.t) :
  NoDup (map fst o) ->
  forall d : PyDict.t,
    PyDict.get k (PyDict.update d o) =
    match PyDict.get k o with
    | Some v => Some v
    | None => PyDict.get k d
    end.
Proof.
  induction o as [| [k0 v0] o IH]; intros Hnd d; [reflexivity |].
  cbn [map fst] in Hnd. apply NoDup_cons in Hnd as [Hk0 Hnd].
  rewrite update_cons, (IH Hnd). cbn [PyDict.get].
  destruct (String.eqb_spec k k0) as [-> | Hne].
  - assert (Hnone : PyDict.get k0 o = None).
    { apply get_None_keys. intros HIn. apply Hk0. now apply list_elem_of_In. }
    now rewrite Hnone, get_set_eq.
  - destruct (PyDict.get k o); [reflexivity |].
    apply get_set_ne. congruence.
Qed.

Lemma normalize_keys_NoDup (items : list (string * string)) :
  NoDup (map fst (normalize_keys items)).
Proof.
  apply (normalize_keys_invariant (fun d => NoDup (map fst d))).
  - constructor.
  - intros k v d. apply set_NoDup.
Qed.

(** The merged mapping binds a key to the value of the highest-precedence
    source that supplies it, empty or not. *)
Lemma merged_config_get (self : ConfigOptionParser) (env : list (string * string))
    (k : string) :
  PyDict.get k (merged_config self env) = highest_precedence_value self env k.
Proof.
  unfold merged_config, highest_precedence_value, from_environment, from_section.
  cbn [fold_left].
  rewrite !get_update by apply normalize_keys_NoDup.
  cbn [PyDict.get].
  now destruct (PyDict.get k (normalize_keys (get_config_section self "global"))).
Qed.

Lemma update_NoDup (o : PyDict.t) :
  forall d : PyDict.t,
    NoDup (map fst d) -> NoDup (map fst (PyDict.update d o)).
Proof.
  induction o as [| [k v] o IH]; intros d Hd; [exact Hd |].
  rewrite update_cons. apply IH. now apply set_NoDup.
Qed.

(** The merged mapping has each key once. *)
Lemma merged_config_NoDup (self : ConfigOptionParser)
    (env : list (string * string)) :
  NoDup (map fst (merged_config self env)).
Proof.
  unfold merged_config. cbn [fold_left].
  repeat apply update_NoDup. constructor.
Qed.

(** ** C4: empty values *)

(** C4, as amended. An empty raw value that the merged mapping holds for
    a key is skipped: resolution is the loop over the items with a
    non-empty value alone, so the key writes nothing to the defaults.
    The merge itself does not skip empty values: the merged mapping binds
    each key to the value of the highest-precedence source that supplies
    it, be it empty. *)
Theorem empty_values_skipped_after_merge (self : ConfigOptionParser) (d : loc)
    (st : State) :
  update_defaults self d st =
  update_defaults_from d
    (List.filter nonempty_value
       (PyDict.items (merged_config self (environ st)))) st /\
  forall k : string,
    PyDict.get k (merged_config self (environ st))
    = highest_precedence_value self (environ st) k.
Proof.
  split; [| intros k; apply merged_config_get].
  rewrite update_defaults_from_eq. unfold update_defaults_from, bind.
  rewrite <- (for_each_filter (fun _ => True) nonempty_value
                (update_defaults_item d)); auto.
  intros [k v] st1 _ Hempty. unfold nonempty_value in Hempty.
  cbn [snd] in Hempty. apply negb_false_iff in Hempty.
  rewrite update_defaults_item_eq, Hempty.
  now destruct (get_option (options st1) k) as [[i o] |].
Qed.

(** ** Materializing the defaults *)

Lemma Values_eq (d : loc) (st : State) :
  Values d st =
  if decide (is_Some (deref st d !! None)) then (Raise TypeError, st)
  else (Return (length (heap st)),
        mkState (environ st) (options st) (heap st ++ [deref st d]) (stdout st)).
Proof. reflexivity. Qed.

Lemma check_default_eq (d : loc) (o : Option) (st : State) :
  check_default d o st =
  match deref st d !! dest o with
  | Some (PStr s) =>
      match get_opt_string o with
      | Return opt_str =>
          match check_value o opt_str (PStr s) with
          | Return v =>
              (Return tt,
               mkState (environ st) (options st)
                       (alter (insert (dest o) v) d (heap st)) (stdout st))
          | Raise e => (Raise e, st)
          end
      | Raise e => (Raise e, st)
      end
  | _ => (Return tt, st)
  end.
Proof.
  unfold check_default, bind, dict_get, lift, dict_setitem, ret.
  destruct (deref st d !! dest o) as [[] |]; reflexivity.
Qed.

Lemma get_default_values_eq (self : ConfigOptionParser) (st : State) :
  get_default_values self st =
  if negb (process_default_values self) then Values (defaults self) st
  else
    let d := length (heap st) in
    let st1 := mkState (environ st) (options st)
                       (heap st ++ [deref st (defaults self)]) (stdout st) in
    match for_each (update_defaults_item d)
            (PyDict.items (merged_config self (environ st))) st1 with
    | (Return _, st2) =>
        match for_each (check_default d) (options st2) st2 with
        | (Return _, st3) => Values d st3
        | (Raise e, st3) => (Raise e, st3)
        end
    | (Raise e, st2) => (Raise e, st2)
    end.
Proof.
  unfold get_default_values.
  destruct (negb (process_default_values self)); [reflexivity |].
  unfold bind at 1. unfold dict_copy, alloc. cbv zeta.
  unfold bind at 1. rewrite update_defaults_eq. cbn [environ].
  destruct (for_each (update_defaults_item _) _ _) as [[[] | e] st2];
    [| reflexivity].
  unfold bind, get_state.
  now destruct (for_each (check_default _) _ _) as [[[] | e] st3].
Qed.

Lemma check_default_evolves (d : loc) (o : Option) (st : State) :
  evolves d st (snd (check_default d o st)) /\
  options (snd (check_default d o st)) = options st.
Proof.
  rewrite check_default_eq.
  assert (Hst : evolves d st st /\ options st = options st)
    by (split; [apply evolves_refl | reflexivity]).
  destruct (deref st d !! dest o) as [[] |]; try exact Hst.
  destruct (get_opt_string o); [| exact Hst].
  destruct (check_value o a (PStr s)); [| exact Hst].
  cbn. split; [| reflexivity].
  unfold evolves. cbn.
  split_and!; [reflexivity | apply options_step_refl | apply length_alter |].
  intros l Hne. now apply list_lookup_alter_ne.
Qed.

Lemma check_loop_evolves (d : loc) (l : list Option) (st : State) :
  evolves d st (snd (for_each (check_default d) l st)).
Proof.
  apply (for_each_relates (evolves d)).
  - apply evolves_refl.
  - apply evolves_trans.
  - intros x st0. apply check_default_evolves.
Qed.

(** What [get_default_values] leaves alone: the environment, the option
    objects but for [nargs_update], and every dictionary that existed;
    the object it returns is a new one. *)
Lemma get_default_values_frame (self : ConfigOptionParser) (st : State) :
  environ (snd (get_default_values self st)) = environ st /\
  Forall2 nargs_update (options st) (options (snd (get_default_values self st))) /\
  (forall l : loc, l < length (heap st) ->
     heap (snd (get_default_values self st)) !! l = heap st !! l) /\
  match fst (get_default_values self st) with
  | Return l =>
      length (heap st) <= l /\ l < length (heap (snd (get_default_values self st)))
  | Raise _ => True
  end.
Proof.
  rewrite get_default_values_eq.
  assert (Halloc : forall (d : loc) (st0 : State),
    environ (snd (Values d st0)) = environ st0 /\
    options (snd (Values d st0)) = options st0 /\
    (forall l : loc, l < length (heap st0) ->
       heap (snd (Values d st0)) !! l = heap st0 !! l) /\
    match fst (Values d st0) with
    | Return l => length (heap st0) <= l /\ l < length (heap (snd (Values d st0)))
    | Raise _ => True
    end).
  { intros d st0. rewrite Values_eq.
    destruct (decide (is_Some (deref st0 d !! None))); cbn; [auto |].
    split_and!; auto.
    - intros l Hl. now apply lookup_app_l.
    - rewrite length_app. cbn. lia. }
  destruct (negb (process_default_values self)).
  { destruct (Halloc (defaults self) st) as (He & Ho & Hh & Hr).
    split_and!; auto. rewrite Ho. apply options_step_refl. }
  cbv zeta.
  set (d := length (heap st)).
  set (st1 := mkState (environ st) (options st)
                (heap st ++ [deref st (defaults self)]) (stdout st)).
  assert (H1 : forall st2, evolves d st1 st2 ->
    environ st2 = environ st /\
    Forall2 nargs_update (options st) (options st2) /\
    (forall l : loc, l < length (heap st) -> heap st2 !! l = heap st !! l) /\
    length (heap st) <= length (heap st2)).
  { intros st2 (He & Ho & Hl & Hh). split_and!; auto.
    - intros l Hl'. rewrite Hh by (unfold d; lia).
      cbn. now apply lookup_app_l.
    - rewrite Hl. cbn. rewrite length_app. lia. }
  pose proof (loop_evolves d (PyDict.items (merged_config self (environ st))) st1)
    as Hev2.
  destruct (for_each (update_defaults_item d) _ st1) as [[[] | e] st2];
    cbn [snd] in Hev2.
  2:{ destruct (H1 st2 Hev2) as (? & ? & ? & ?). cbn. auto. }
  pose proof (check_loop_evolves d (options st2) st2) as Hev3.
  pose proof (evolves_trans d st1 st2 _ Hev2 Hev3) as Hev13.
  destruct (for_each (check_default d) _ st2) as [[[] | e] st3];
    cbn [snd] in Hev3, Hev13.
  2:{ destruct (H1 st3 Hev13) as (? & ? & ? & ?). cbn. auto. }
  destruct (H1 st3 Hev13) as (He3 & Ho3 & Hh3 & Hl3).
  destruct (Halloc d st3) as (He & Ho & Hh & Hr).
  split_and!.
  - congruence.
  - now rewrite Ho.
  - intros l Hl. rewrite Hh by lia. now apply Hh3.
  - destruct (fst (Values d st3)); [lia | exact I].
Qed.

(** ** C8: what resolution changes in an option object *)

(** C8, as amended. Resolution changes no field of an option object
    other than [nargs]: after [get_default_values], and after
    [update_defaults] on any dictionary, every option object is as it
    was, or is an option whose action is not [append] with [nargs] set
    to 1 and every other field as it was. *)
Theorem options_change_only_nargs (self : ConfigOptionParser) (d : loc)
    (st : State) :
  Forall2 nargs_update (options st) (options (snd (get_default_values self st))) /\
  Forall2 nargs_update (options st) (options (snd (update_defaults self d st))).
Proof.
  split.
  - apply get_default_values_frame.
  - apply update_defaults_evolves.
Qed.

(** ** C10: the stored defaults *)

(** C10. [get_default_values] leaves the dictionary that the parser
    keeps in [defaults] with the bindings it had, whatever the outcome,
    and the object it returns is a new one, distinct from it. *)
Theorem get_default_values_keeps_stored_defaults (self : ConfigOptionParser)
    (st : State) :
  defaults self < length (heap st) ->
  heap (snd (get_default_values self st)) !! defaults self
  = heap st !! defaults self /\
  match fst (get_default_values self st) with
  | Return l => l <> defaults self /\ length (heap st) <= l
  | Raise _ => True
  end.
Proof.
  intros Hd.
  destruct (get_default_values_frame self st) as (_ & _ & Hh & Hr).
  split; [now apply Hh |].
  destruct (fst (get_default_values self st)); [lia | exact I].
Qed.

(** ** C1: the precedence of the sources *)

(** The last item of a list that writes a destination decides what the
    destination is bound to. *)
Lemma loop_last_writer (d : loc) (l1 l2 : list (string * string))
    (k v : string) (i : nat) (o : Option) (st st' : State) :
  d < length (heap st) ->
  get_option (options st) k = Some (i, o) ->
  v <> "" ->
  forallb (fun kv => negb (writes_dest (options st) (dest o) kv)) l2 = true ->
  for_each (update_defaults_item d) (l1 ++ (k, v) :: l2) st = (Return tt, st') ->
  exists val, coerced_value o k v = Return val /\
              deref st' d !! dest o = Some val.
Proof.
  intros Hd Hget Hv Hlast Hrun.
  rewrite for_each_app in Hrun.
  pose proof (loop_evolves d l1 st) as Hev1.
  destruct (for_each (update_defaults_item d) l1 st) as [[[] | e] st1];
    [| discriminate].
  cbn [snd] in Hev1. rewrite for_each_cons in Hrun.
  pose proof (item_evolves d (k, v) st1) as Hev2.
  destruct (update_defaults_item d (k, v) st1) as [[[] | e] st2] eqn:Hitem;
    [| discriminate].
  cbn [snd] in Hev2.
  destruct Hev1 as (_ & Ho1 & Hl1 & _).
  pose proof (get_option_step _ _ k Ho1) as Hstep. rewrite Hget in Hstep.
  inversion Hstep as [a [j o1] [Hij Hoo] Ha Hb |]; subst a. cbn in Hij, Hoo.
  subst j. symmetry in Hb.
  destruct (item_writes_dest d k v i o1 st1 st2) as (val & Hval & Hbound); auto.
  { now rewrite Hl1. }
  rewrite (coerced_value_nargs_update o o1 k v Hoo) in Hval.
  apply nargs_update_fields in Hoo as (_ & _ & _ & _ & Hdest & _).
  rewrite Hdest in Hbound.
  exists val. split; [exact Hval |].
  destruct Hev2 as (_ & Ho2 & _).
  pose proof (options_step_trans _ _ _ Ho1 Ho2) as Ho02.
  pose proof (loop_keeps_dest d (dest o) l2 st2) as Hkeep.
  rewrite (no_writer_step _ _ (dest o) l2 Ho02) in Hkeep.
  specialize (Hkeep Hlast).
  destruct (for_each (update_defaults_item d) l2 st2) as [[[] | e] st3];
    [| discriminate].
  injection Hrun as <-. cbn [snd] in Hkeep. now rewrite Hkeep.
Qed.

(** When a key is the only one of a dictionary that writes a
    destination, no item behind it writes the destination, in whatever
    order the items of the dictionary are visited. *)
Lemma sole_writer_any_order (opts : list Option) (dn : Datatypes.option string)
    (k v : string) (cfg its : list (string * string)) :
  NoDup (map fst cfg) ->
  Permutation its cfg ->
  In (k, v) cfg ->
  forallb (fun kv => String.eqb (fst kv) k || negb (writes_dest opts dn kv)) cfg
  = true ->
  exists l1 l2,
    its = l1 ++ (k, v) :: l2 /\
    forallb (fun kv => negb (writes_dest opts dn kv)) l2 = true.
Proof.
  intros Hnd Hperm HIn Hsole.
  assert (HIn' : In (k, v) its)
    by (eapply Permutation_in; [symmetry; exact Hperm | exact HIn]).
  destruct (in_split _ _ HIn') as (l1 & l2 & Hsplit).
  exists l1, l2. split; [exact Hsplit |].
  apply forallb_forall. intros kv Hkv.
  assert (Hcfg : In kv cfg).
  { eapply Permutation_in; [exact Hperm |]. rewrite Hsplit.
    apply in_or_app. right. now right. }
  rewrite forallb_forall in Hsole. specialize (Hsole kv Hcfg).
  apply orb_true_iff in Hsole as [Hk | Hw]; [| exact Hw].
  apply String.eqb_eq in Hk.
  assert (Hnd' : List.NoDup (map fst its)).
  { eapply Permutation_NoDup; [| apply NoDup_ListNoDup; exact Hnd].
    apply Permutation_map. now symmetry. }
  rewrite Hsplit, map_app in Hnd'. cbn [map fst] in Hnd'.
  apply NoDup_remove_2 in Hnd'. destruct Hnd'.
  apply in_or_app. right. rewrite <- Hk. now apply in_map.
Qed.

Lemma update_defaults_from_run (d : loc) (its : list (string * string))
    (st st' : State) :
  update_defaults_from d its st = (Return d, st') ->
  for_each (update_defaults_item d) its st = (Return tt, st').
Proof.
  unfold update_defaults_from, bind, ret.
  destruct (for_each (update_defaults_item d) its st) as [[[] | e] st1];
    [| discriminate].
  now intros [= ->].
Qed.

(** C1, as amended. The merged mapping binds every key to the value of
    the highest-precedence source that supplies it: the environment,
    else the section named after the command, else the section [global].
    When that value is not empty, the key designates an option and no
    other key of the merged mapping writes the same destination (no
    alias of the option and no option that shares its destination has a
    non-empty value), a resolution that returns binds the destination to
    the coerced form of that value, whatever the defaults held for it
    and in whatever order the items of the mapping are visited. *)
Theorem precedence_of_sources (self : ConfigOptionParser) (d : loc) (st st' : State)
    (its : list (string * string)) (k v : string) (i : nat) (o : Option) :
  PyDict.get k (merged_config self (environ st))
  = highest_precedence_value self (environ st) k /\
  (d < length (heap st) ->
   Permutation its (PyDict.items (merged_config self (environ st))) ->
   highest_precedence_value self (environ st) k = Some v ->
   v <> "" ->
   get_option (options st) k = Some (i, o) ->
   forallb (fun kv => String.eqb (fst kv) k ||
                      negb (writes_dest (options st) (dest o) kv))
     (PyDict.items (merged_config self (environ st))) = true ->
   update_defaults_from d its st = (Return d, st') ->
   exists val, coerced_value o k v = Return val /\
               deref st' d !! dest o = Some val).
Proof.
  split; [apply merged_config_get |].
  intros Hd Hperm Htop Hv Hget Hsole Hrun.
  rewrite <- merged_config_get in Htop. apply get_Some_In in Htop.
  destruct (sole_writer_any_order (options st) (dest o) k v
              (PyDict.items (merged_config self (environ st))) its)
    as (l1 & l2 & -> & Hlast); auto.
  { apply merged_config_NoDup. }
  apply update_defaults_from_run in Hrun.
  eapply loop_last_writer; eauto.
Qed.

(** ** C2: options that no source writes *)

Lemma check_default_keeps_dest (d : loc) (o : Option) (dn : option string)
    (st : State) :
  dest o <> dn ->
  deref (snd (check_default d o st)) d !! dn = deref st d !! dn.
Proof.
  intros Hne. rewrite check_default_eq.
  destruct (deref st d !! dest o) as [[] |]; try reflexivity.
  destruct (get_opt_string o) as [opt_str |]; [| reflexivity].
  destruct (check_value o opt_str (PStr s)) as [v |]; [| reflexivity].
  unfold deref. cbn. rewrite list_lookup_alter_eq.
  destruct (heap st !! d) as [m |]; cbn; [| reflexivity].
  now apply lookup_insert_ne.
Qed.

Lemma check_loop_keeps_dest (d : loc) (dn : option string) (l : list Option) :
  Forall (fun o => dest o <> dn) l ->
  forall st : State,
    deref (snd (for_each (check_default d) l st)) d !! dn = deref st d !! dn.
Proof.
  induction 1 as [| o l Ho _ IH]; intros st; [reflexivity |].
  rewrite for_each_cons.
  pose proof (check_default_keeps_dest d o dn st Ho) as Hkeep.
  destruct (check_default d o st) as [[[] | e] st1]; cbn [snd] in *;
    [| exact Hkeep].
  now rewrite IH.
Qed.

(** The turn of the option that owns the destination: a string is
    replaced by its checked form, anything else stays. *)
Lemma check_default_owner (d : loc) (o : Option) (v0 : pyval) (st st1 : State) :
  d < length (heap st) ->
  deref st d !! dest o = Some v0 ->
  check_default d o st = (Return tt, st1) ->
  exists v, deref st1 d !! dest o = Some v /\
    match v0 with
    | PStr s =>
        exists opt_str, get_opt_string o = Return opt_str /\
                        check_value o opt_str (PStr s) = Return v
    | _ => v = v0
    end.
Proof.
  intros Hd Hv0. rewrite check_default_eq, Hv0.
  destruct v0;
    try (intros [= <-]; eexists; split; [exact Hv0 | reflexivity]).
  destruct (get_opt_string o) as [opt_str |]; [| discriminate].
  destruct (check_value o opt_str (PStr s)) as [v |] eqn:Hc; [| discriminate].
  intros [= <-]. exists v. split; [| eauto].
  unfold deref. cbn. rewrite list_lookup_alter_eq.
  destruct (lookup_lt_is_Some_2 (heap st) d Hd) as [m ->]. cbn.
  apply lookup_insert_eq.
Qed.

Lemma filter_length_0 {A} (f : A -> bool) (l : list A) :
  length (List.filter f l) = 0 -> Forall (fun x => f x = false) l.
Proof.
  induction l as [| x l IH]; [constructor |].
  cbn. destruct (f x) eqn:E; [discriminate |].
  intros H0. constructor; auto.
Qed.

(** With one option for a destination, the options before and after it
    have other destinations. *)
Lemma sole_owner_split (opts : list Option) (i : nat) (o : Option) :
  opts !! i = Some o ->
  length (List.filter (fun o' => bool_decide (dest o' = dest o)) opts) = 1 ->
  exists l1 l2, opts = l1 ++ o :: l2 /\
    Forall (fun o' => dest o' <> dest o) l1 /\
    Forall (fun o' => dest o' <> dest o) l2.
Proof.
  intros Hi Hcount.
  exists (take i opts), (drop (S i) opts).
  pose proof (take_drop_middle opts i o Hi) as Hsplit.
  split; [now symmetry |].
  rewrite <- Hsplit, List.filter_app, length_app in Hcount.
  cbn [List.filter] in Hcount.
  rewrite bool_decide_eq_true_2 in Hcount by reflexivity.
  cbn [length] in Hcount.
  split; apply (Forall_impl (fun o' => bool_decide (dest o' = dest o) = false));
    try (intros o' Ho'; now apply bool_decide_eq_false in Ho');
    apply filter_length_0; lia.
Qed.

Lemma check_value_nargs_update (o o' : Option) (opt : string) (v : pyval) :
  nargs_update o o' -> check_value o' opt v = check_value o opt v.
Proof. intros [-> | [_ ->]]; reflexivity. Qed.

Lemma get_opt_string_nargs_update (o o' : Option) :
  nargs_update o o' -> get_opt_string o' = get_opt_string o.
Proof. intros [-> | [_ ->]]; reflexivity. Qed.

Lemma options_step_dests (dn : option string) (l l' : list Option) :
  Forall2 nargs_update l l' ->
  Forall (fun o => dest o <> dn) l -> Forall (fun o => dest o <> dn) l'.
Proof.
  induction 1 as [| o o' l l' Hoo _ IH]; intros Hl; [constructor |].
  inversion Hl as [| ? ? Ho Hl']; subst.
  apply nargs_update_fields in Hoo as (_ & _ & _ & _ & Hd & _).
  constructor; [congruence | auto].
Qed.

(** C2, as amended. Let an option be the only one with its destination,
    let the parser's table hold for it the default that [add_option]
    stored, and let no source write that destination (no item of the
    merged mapping with a non-empty value designates the option).  Then
    the mapping that [get_default_values] returns binds the destination
    to that default, except that a default that is a string is first
    passed through [check_value] of the option with its option string
    (lines 175-179): a string-typed option keeps the string, a numeric
    one gets the converted value.  When [process_default_values] is off
    the string is kept as it is. *)
Theorem unwritten_destination_keeps_default (self : ConfigOptionParser)
    (st st' : State) (i : nat) (o : Option) (l : loc) :
  defaults self < length (heap st) ->
  options st !! i = Some o ->
  length (List.filter (fun o' => bool_decide (dest o' = dest o)) (options st)) = 1 ->
  deref st (defaults self) !! dest o = Some (seeded_default o) ->
  forallb (fun kv => negb (writes_dest (options st) (dest o) kv))
    (PyDict.items (merged_config self (environ st))) = true ->
  get_default_values self st = (Return l, st') ->
  exists v, deref st' l !! dest o = Some v /\
    match seeded_default o with
    | PStr s =>
        if process_default_values self
        then exists opt_str, get_opt_string o = Return opt_str /\
                             check_value o opt_str (PStr s) = Return v
        else v = PStr s
    | v0 => v = v0
    end.
Proof.
  intros Hd Hi Hsole Hseed Hnone Hrun.
  assert (HValues : forall (d0 : loc) (st0 : State) (l0 : loc) (st0' : State),
    Values d0 st0 = (Return l0, st0') -> deref st0' l0 = deref st0 d0).
  { intros d0 st0 l0 st0'. rewrite Values_eq.
    destruct (decide _); [discriminate |]. intros [= <- <-].
    unfold deref at 1. cbn. now rewrite list_lookup_middle. }
  rewrite get_default_values_eq in Hrun.
  destruct (process_default_values self); cbn [negb] in Hrun.
  2:{ apply HValues in Hrun. rewrite Hrun, Hseed.
      exists (seeded_default o). split; [reflexivity |].
      now destruct (seeded_default o). }
  cbv zeta in Hrun.
  set (d := length (heap st)) in *.
  set (st1 := mkState (environ st) (options st)
                (heap st ++ [deref st (defaults self)]) (stdout st)) in *.
  assert (Hst1 : deref st1 d = deref st (defaults self)).
  { unfold deref at 1. cbn. now rewrite list_lookup_middle. }
  pose proof (loop_keeps_dest d (dest o)
                (PyDict.items (merged_config self (environ st))) st1 Hnone) as Hkeep.
  pose proof (loop_evolves d
                (PyDict.items (merged_config self (environ st))) st1) as Hev.
  destruct (for_each (update_defaults_item d) _ st1) as [[[] | e] st2];
    [| discriminate].
  cbn [snd] in Hkeep, Hev. destruct Hev as (_ & Ho2 & Hl2 & _).
  change (options st1) with (options st) in Ho2.
  change (heap st1) with (heap st ++ [deref st (defaults self)]) in Hl2.
  destruct (sole_owner_split _ i o Hi Hsole) as (l1 & l2 & Hsplit & Hl1 & Hl2').
  rewrite Hsplit in Ho2.
  apply Forall2_app_inv_l in Ho2 as (l1' & r' & Hl1l1' & Hr & Hopts2).
  apply Forall2_cons_inv_l in Hr as (o2 & l2' & Hoo & Hl2l2' & ->).
  rewrite Hopts2, for_each_app in Hrun.
  pose proof (check_loop_keeps_dest d (dest o) l1'
                (options_step_dests _ _ _ Hl1l1' Hl1) st2) as Hk1.
  pose proof (check_loop_evolves d l1' st2) as (_ & _ & Hlen3 & _).
  destruct (for_each (check_default d) l1' st2) as [[[] | e] st3];
    [| discriminate].
  cbn [snd] in Hk1, Hlen3. rewrite for_each_cons in Hrun.
  pose proof (nargs_update_fields _ _ Hoo) as (_ & _ & _ & _ & Hdest & _).
  destruct (check_default d o2 st3) as [[[] | e] st4] eqn:Hturn;
    [| discriminate].
  destruct (check_default_owner d o2 (seeded_default o) st3 st4)
    as (v & Hv & Hshape); auto.
  { rewrite Hlen3, Hl2, length_app. cbn. unfold d. lia. }
  { rewrite Hdest, Hk1, Hkeep, Hst1. exact Hseed. }
  pose proof (check_loop_keeps_dest d (dest o) l2'
                (options_step_dests _ _ _ Hl2l2' Hl2') st4) as Hk2.
  destruct (for_each (check_default d) l2' st4) as [[[] | e] st5];
    [| discriminate].
  cbn [snd] in Hk2. apply HValues in Hrun.
  exists v. split.
  { rewrite Hrun, Hk2, <- Hdest. exact Hv. }
  destruct (seeded_default o); try exact Hshape.
  destruct Hshape as (opt_str & Hs & Hc). exists opt_str.
  rewrite <- (get_opt_string_nargs_update o o2 Hoo).
  rewrite <- (check_value_nargs_update o o2 opt_str (PStr s) Hoo). auto.
Qed.

(** ** C6: the coercion of flags and counters *)

Lemma lower_ascii_idempotent (c : ascii) :
  PyStr.lower_ascii (PyStr.lower_ascii c) = PyStr.lower_ascii c.
Proof. destruct c as [[] [] [] [] [] [] [] []]; reflexivity. Qed.

Lemma lower_idempotent (s : string) : PyStr.lower (PyStr.lower s) = PyStr.lower s.
Proof.
  induction s as [| c s IH]; [reflexivity |].
  cbn. now rewrite lower_ascii_idempotent, IH.
Qed.

Lemma existsb_eqb_In (s : string) (l : list string) :
  existsb (String.eqb s) l = true <-> In s l.
Proof.
  rewrite existsb_exists. split.
  - intros (x & Hx & Heq). apply String.eqb_eq in Heq. now subst.
  - intros HIn. exists s. split; [exact HIn | apply String.eqb_refl].
Qed.

Lemma flag_action_not_append (a : Action) :
  is_flag_action a = true -> Action_eqb a append = false.
Proof. now destruct a. Qed.

(** A flag or counter option whose value [strtobool] refuses makes the
    loop body raise, in every state the loop can be in. *)
Lemma flag_item_raises (d : loc) (k v : string) (i : nat) (o : Option)
    (e : exn) (st : State) :
  get_option (options st) k = Some (i, o) ->
  v <> "" ->
  is_flag_action (action o) = true ->
  strtobool (PStr v) = Raise e ->
  exists e', fst (update_defaults_item d (k, v) st) = Raise e'.
Proof.
  intros Hget Hv Hflag Hraise.
  rewrite update_defaults_item_eq, Hget.
  destruct (String.eqb_spec v "") as [-> | _]; [now destruct Hv |].
  cbv zeta. unfold coerced_value.
  rewrite (flag_action_not_append _ Hflag). cbn [action set_nargs].
  rewrite Hflag, Hraise.
  destruct e; eauto.
Qed.

Lemma for_each_raises {X} (I : State -> Prop) (body : X -> M unit) (x : X) :
  (forall y st, I st -> I (snd (body y st))) ->
  (forall st, I st -> exists e, fst (body x st) = Raise e) ->
  forall l st, In x l -> I st -> exists e, fst (for_each body l st) = Raise e.
Proof.
  intros Hinv Hx l. induction l as [| y l IH]; intros st HIn Hst;
    [now destruct HIn |].
  rewrite for_each_cons. specialize (Hinv y st Hst).
  destruct HIn as [-> | HIn].
  - destruct (Hx st Hst) as [e He].
    destruct (body x st) as [[[] | e'] st1]; [discriminate | eauto].
  - destruct (body y st) as [[[] | e'] st1]; [now apply IH | eauto].
Qed.

(** What lines 128-135 make of a value for a flag or counter option: the
    result of [strtobool], which [convert_value] returns as it is. *)
Lemma flag_coerced_value (o : Option) (k v : string) :
  action o = store_true \/ action o = store_false \/ action o = count ->
  type o = None ->
  coerced_value o k v
  = (if existsb (String.eqb (PyStr.lower v)) ["y"; "yes"; "t"; "true"; "on"; "1"]
     then Return (PInt 1)
     else if existsb (String.eqb (PyStr.lower v))
               ["n"; "no"; "f"; "false"; "off"; "0"]
     then Return (PInt 0)
     else Raise (ValueError (PStr (PyStr.lower v)))).
Proof.
  intros Hact Htype. unfold coerced_value.
  assert (Hflag : is_flag_action (action o) = true)
    by (destruct Hact as [-> | [-> | ->]]; reflexivity).
  rewrite (flag_action_not_append _ Hflag). cbn [action set_nargs].
  rewrite Hflag. unfold strtobool.
  change true_tokens with ["y"; "yes"; "t"; "true"; "on"; "1"].
  change false_tokens with ["n"; "no"; "f"; "false"; "off"; "0"].
  destruct (existsb (String.eqb (PyStr.lower v)) ["y"; "yes"; "t"; "true"; "on"; "1"]).
  { unfold convert_value, check_value. cbn [nargs type set_nargs].
    now rewrite Htype. }
  destruct (existsb (String.eqb (PyStr.lower v))
              ["n"; "no"; "f"; "false"; "off"; "0"]); [| reflexivity].
  unfold convert_value, check_value. cbn [nargs type set_nargs].
  now rewrite Htype.
Qed.

(** C6, as amended. For an option whose action is [store_true],
    [store_false] or [count] (such an option has no type), the value
    that lines 128-135 coerce from a raw string is the integer 1 when
    the lower-cased string is one of y, yes, t, true, on, 1, the integer
    0 when it is one of n, no, f, false, off, 0, and a [ValueError]
    otherwise: the comparison is without regard to case.  When the
    merged mapping gives the option such a string, not empty, then in
    whatever order the items are visited: if the string is in the
    vocabulary and no other key writes the destination, a resolution
    that returns binds the destination to that 1 or 0; if the string is
    not in the vocabulary, the resolution raises. *)
Theorem flag_coercion (self : ConfigOptionParser) (d : loc) (st st' : State)
    (its : list (string * string)) (k v : string) (i : nat) (o : Option) :
  In (k, v) (PyDict.items (merged_config self (environ st))) ->
  v <> "" ->
  get_option (options st) k = Some (i, o) ->
  action o = store_true \/ action o = store_false \/ action o = count ->
  type o = None ->
  Permutation its (PyDict.items (merged_config self (environ st))) ->
  coerced_value o k v
  = (if existsb (String.eqb (PyStr.lower v)) ["y"; "yes"; "t"; "true"; "on"; "1"]
     then Return (PInt 1)
     else if existsb (String.eqb (PyStr.lower v))
               ["n"; "no"; "f"; "false"; "off"; "0"]
     then Return (PInt 0)
     else Raise (ValueError (PStr (PyStr.lower v)))) /\
  coerced_value o k v = coerced_value o k (PyStr.lower v) /\
  (In (PyStr.lower v)
      ["y"; "yes"; "t"; "true"; "on"; "1"; "n"; "no"; "f"; "false"; "off"; "0"] ->
   d < length (heap st) ->
   forallb (fun kv => String.eqb (fst kv) k ||
                      negb (writes_dest (options st) (dest o) kv))
     (PyDict.items (merged_config self (environ st))) = true ->
   update_defaults_from d its st = (Return d, st') ->
   deref st' d !! dest o
   = Some (PInt (if existsb (String.eqb (PyStr.lower v))
                      ["y"; "yes"; "t"; "true"; "on"; "1"]
                 then 1 else 0))) /\
  (~ In (PyStr.lower v)
       ["y"; "yes"; "t"; "true"; "on"; "1"; "n"; "no"; "f"; "false"; "off"; "0"] ->
   exists e, fst (update_defaults_from d its st) = Raise e).
Proof.
  intros HIn Hv Hget Hact Htype Hperm.
  pose proof (flag_coerced_value o k v Hact Htype) as Hc.
  assert (Hflag : is_flag_action (action o) = true)
    by (destruct Hact as [-> | [-> | ->]]; reflexivity).
  split; [exact Hc |].
  split.
  { rewrite Hc, (flag_coerced_value o k (PyStr.lower v) Hact Htype).
    now rewrite lower_idempotent. }
  split.
  - intros Hvoc Hd Hsole Hrun.
    destruct (sole_writer_any_order (options st) (dest o) k v
                (PyDict.items (merged_config self (environ st))) its)
      as (l1 & l2 & -> & Hlast); auto.
    { apply merged_config_NoDup. }
    apply update_defaults_from_run in Hrun.
    destruct (loop_last_writer d l1 l2 k v i o st st' Hd Hget Hv Hlast Hrun)
      as (val & Hval & Hbound).
    rewrite Hbound. f_equal. rewrite Hc in Hval.
    destruct (existsb (String.eqb (PyStr.lower v))
                ["y"; "yes"; "t"; "true"; "on"; "1"]) eqn:Et;
      [now injection Hval |].
    destruct (existsb (String.eqb (PyStr.lower v))
                ["n"; "no"; "f"; "false"; "off"; "0"]) eqn:Ef;
      [now injection Hval |].
    exfalso.
    change (In (PyStr.lower v)
              (["y"; "yes"; "t"; "true"; "on"; "1"]
               ++ ["n"; "no"; "f"; "false"; "off"; "0"])) in Hvoc.
    apply in_app_or in Hvoc as [Hin | Hin]; apply existsb_eqb_In in Hin;
      congruence.
  - intros Hnot.
    assert (Hraise : strtobool (Float := Float) (PStr v)
                     = Raise (ValueError (PStr (PyStr.lower v)))).
    { unfold strtobool.
      destruct (existsb (String.eqb (PyStr.lower v)) true_tokens) eqn:Et.
      { apply existsb_eqb_In in Et. destruct Hnot.
        change (In (PyStr.lower v) (true_tokens ++ false_tokens)).
        apply in_or_app. now left. }
      destruct (existsb (String.eqb (PyStr.lower v)) false_tokens) eqn:Ef;
        [| reflexivity].
      apply existsb_eqb_In in Ef. destruct Hnot.
      change (In (PyStr.lower v) (true_tokens ++ false_tokens)).
      apply in_or_app. now right. }
    destruct (for_each_raises
                (fun st' => Forall2 nargs_update (options st) (options st'))
                (update_defaults_item d) (k, v)) with (l := its) (st := st)
      as [e He].
    + intros y st1. apply options_step_item.
    + intros st1 Hst1.
      pose proof (get_option_step _ _ k Hst1) as Hstep. rewrite Hget in Hstep.
      inversion Hstep as [a [j o1] [Hij Hoo] Ha Hb |]; subst a.
      cbn in Hij, Hoo. subst j. symmetry in Hb.
      apply nargs_update_fields in Hoo as (_ & _ & Hact' & _).
      eapply flag_item_raises; eauto. now rewrite Hact'.
    + eapply Permutation_in; [symmetry; exact Hperm | exact HIn].
    + apply options_step_refl.
    + unfold update_defaults_from, bind.
      destruct (for_each _ _ st) as [[[] | e'] st1]; [discriminate | eauto].
Qed.

(** ** C7: the exit status of a coercion failure *)

(** An [OptionValueError] of [convert_value] is printed and becomes the
    exit status 3. *)
Lemma option_value_error_exits_3 (d : loc) (k v : string) (i : nat) (o : Option)
    (e : ove_msg Float) (st : State) :
  get_option (options st) k = Some (i, o) ->
  v <> "" ->
  coerced_value o k v = Raise (OptionValueError e) ->
  fst (update_defaults_item d (k, v) st) = Raise (SystemExit 3) /\
  stdout (snd (update_defaults_item d (k, v) st))
  = stdout st ++ [ConfigurationError e].
Proof.
  intros Hget Hv He. rewrite update_defaults_item_eq, Hget.
  destruct (String.eqb_spec v "") as [-> | _]; [now destruct Hv |].
  cbv zeta. rewrite He. cbn.
  apply get_option_lookup in Hget.
  destruct (after_nargs_step i o st Hget) as (_ & _ & _ & ->). auto.
Qed.

End Properties.

(** ** C9: the enumeration of the environment *)

(** The variables selected are those whose name starts with the prefix,
    in order, each with its value unchanged. *)
Lemma get_environ_vars_selects (env : list (string * string)) (prefix : string) :
  get_environ_vars env prefix =
  map (fun kv => (PyStr.lower (PyStr.replace (fst kv) prefix ""), snd kv))
      (List.filter (fun kv => PyStr.startswith (fst kv) prefix) env).
Proof.
  induction env as [| [key val] env IH]; [reflexivity |].
  cbn [get_environ_vars List.filter fst].
  destruct (PyStr.startswith key prefix); cbn [map fst snd]; now rewrite IH.
Qed.

(** C9. On the environment PIP_SKIP_PIP_CHECK=1 the variable is selected
    and its value kept, but the raw key is skip_check: [replace] removes
    every occurrence of the prefix, where the name without its prefix,
    lower-cased, is skip_pip_check. *)
Theorem get_environ_vars_removes_inner_prefix :
  get_environ_vars [("PIP_SKIP_PIP_CHECK", "1")] "PIP_" = [("skip_check", "1")] /\
  spec_environ_key "PIP_" "PIP_SKIP_PIP_CHECK" = "skip_pip_check".
Proof. split; reflexivity. Qed.

(** ** The main parser at work *)

(** The scenarios of the specification: a file value, then an
    environment value over it. *)
Example timeout_from_file :
  let '(self, st) :=
    create_main_parser "pip.log" [("global", [("timeout", "20")])] [] in
  deref (snd (update_defaults self 0 st)) 0 !! Some "timeout"
  = Some (PFloat 20%Z).
Proof. vm_compute. reflexivity. Qed.

Example timeout_from_environment :
  let '(self, st) :=
    create_main_parser "pip.log" [("global", [("timeout", "20")])]
      [("PIP_TIMEOUT", "5")] in
  deref (snd (update_defaults self 0 st)) 0 !! Some "timeout"
  = Some (PFloat 5%Z).
Proof. vm_compute. reflexivity. Qed.

Example unknown_key_scenario :
  let '(self, st) :=
    create_main_parser "pip.log" [("global", [("foo-bar", "1")])] [] in
  update_defaults self 0 st = (Return 0, st).
Proof. vm_compute. reflexivity. Qed.

(** In this version a value for --exists-action never passes: the list
    that [split] returns is checked as one choice. *)
Example exists_action_from_file :
  let '(self, st) :=
    create_main_parser "pip.log" [("global", [("exists-action", "s")])] [] in
  fst (update_defaults self 0 st) = Raise (SystemExit 3) /\
  stdout (snd (update_defaults self 0 st))
  = [ConfigurationError
       (InvalidChoice "--exists-action" (PList [PStr "s"]) ["s"; "i"; "w"; "b"])].
Proof. vm_compute. split; reflexivity. Qed.

(** Rendering the help updates the parser's own table. *)
Example expand_default_updates_in_place :
  let '(self, st) :=
    create_main_parser "pip.log" [("global", [("timeout", "20")])] [] in
  heap (snd (expand_default_update self st)) !! defaults self
  <> heap st !! defaults self.
Proof.
  cbn -[expand_default_update]. intros H.
  apply (f_equal (fun m => m ≫= fun m => m !! Some "timeout")) in H.
  vm_compute in H. discriminate.
Qed.

(** ** C1: an alias can shadow the environment *)

(** C1, counterexample. The file gives timeout = 20 and
    default-timeout = 30 in [global], the environment PIP_TIMEOUT=5.
    The key --timeout is supplied by the file and by the environment and
    its merged value is the one of the environment, but --default-timeout
    is an alias of the same option and is visited later: the resolved
    timeout is 30, a value of the file.  When the two items are visited
    in the opposite order, the same happens with PIP_DEFAULT_TIMEOUT=5
    in the place of PIP_TIMEOUT=5: the resolved timeout is 20. *)
Lemma alias_in_file_beats_environment :
  let self := main_parser [("global", [("timeout", "20"); ("default-timeout", "30")])] in
  let st := main_state [("global", [("timeout", "20"); ("default-timeout", "30")])]
              [("PIP_TIMEOUT", "5")] in
  let st_alias :=
    main_state [("global", [("timeout", "20"); ("default-timeout", "30")])]
      [("PIP_DEFAULT_TIMEOUT", "5")] in
  from_section self "global" "--timeout" = Some "20" /\
  from_environment (environ st) "--timeout" = Some "5" /\
  coerced_value timeout_option "--timeout" "5" = Return (PFloat 5%Z) /\
  fst (update_defaults self 0 st) = Return 0 /\
  deref (snd (update_defaults self 0 st)) 0 !! Some "timeout" = Some (PFloat 30%Z) /\
  update_defaults self 0 st
  = update_defaults_from 0 [("--timeout", "5"); ("--default-timeout", "30")] st /\
  from_section self "global" "--default-timeout" = Some "30" /\
  from_environment (environ st_alias) "--default-timeout" = Some "5" /\
  merged_config self (environ st_alias)
  = [("--timeout", "20"); ("--default-timeout", "5")] /\
  deref (snd (update_defaults_from 0
                [("--default-timeout", "5"); ("--timeout", "20")] st_alias)) 0
    !! Some "timeout" = Some (PFloat 20%Z).
Proof. vm_compute. repeat split; reflexivity. Qed.

(** The same happens when the items are visited in the opposite order,
    with the alias in the environment. *)
Example alias_shadows_in_reverse_order :
  let self := main_parser [("global", [("timeout", "20"); ("default-timeout", "30")])] in
  let st := main_state [("global", [("timeout", "20"); ("default-timeout", "30")])]
              [("PIP_DEFAULT_TIMEOUT", "5")] in
  from_environment (environ st) "--default-timeout" = Some "5" /\
  deref (snd (update_defaults_from 0
                (rev (PyDict.items (merged_config self (environ st)))) st)) 0
    !! Some "timeout" = Some (PFloat 20%Z).
Proof. vm_compute. split; reflexivity. Qed.

(** A parser for the command install, with a section of its own, the
    items visited in the reverse of the order of insertion. *)
Lemma precedence_of_sources_witness :
  exists val,
    coerced_value timeout_option "--timeout" "5" = Return val /\
    deref
      (snd (update_defaults_from 0
              (rev (PyDict.items
                      (merged_config
                         (mkParser "install"
                            [("global", [("timeout", "20"); ("proxy", "p")]);
                             ("install", [("timeout", "10")])] 0 true)
                         [("PIP_TIMEOUT", "5"); ("PIP_NO_INPUT", "yes")])))
              (main_state
                 [("global", [("timeout", "20"); ("proxy", "p")]);
                  ("install", [("timeout", "10")])]
                 [("PIP_TIMEOUT", "5"); ("PIP_NO_INPUT", "yes")]))) 0
      !! Some "timeout" = Some val.
Proof.
  apply (proj2 (precedence_of_sources
           (mkParser "install"
              [("global", [("timeout", "20"); ("proxy", "p")]);
               ("install", [("timeout", "10")])] 0 true)
           0
           (main_state
              [("global", [("timeout", "20"); ("proxy", "p")]);
               ("install", [("timeout", "10")])]
              [("PIP_TIMEOUT", "5"); ("PIP_NO_INPUT", "yes")])
           (snd (update_defaults_from 0
                   (rev (PyDict.items
                           (merged_config
                              (mkParser "install"
                                 [("global", [("timeout", "20"); ("proxy", "p")]);
                                  ("install", [("timeout", "10")])] 0 true)
                              [("PIP_TIMEOUT", "5"); ("PIP_NO_INPUT", "yes")])))
                   (main_state
                      [("global", [("timeout", "20"); ("proxy", "p")]);
                       ("install", [("timeout", "10")])]
                      [("PIP_TIMEOUT", "5"); ("PIP_NO_INPUT", "yes")])))
           (rev (PyDict.items
                   (merged_config
                      (mkParser "install"
                         [("global", [("timeout", "20"); ("proxy", "p")]);
                          ("install", [("timeout", "10")])] 0 true)
                      [("PIP_TIMEOUT", "5"); ("PIP_NO_INPUT", "yes")])))
           "--timeout" "5" 12 timeout_option)).
  - cbn. lia.
  - symmetry. apply Permutation_rev.
  - vm_compute. reflexivity.
  - discriminate.
  - vm_compute. reflexivity.
  - vm_compute. reflexivity.
  - vm_compute. reflexivity.
Defined.

(** ** C2: a default written as a string *)

(** C2, counterexample. The option --timeout of type float has the
    default '15', a string, and no source mentions it: the resolved
    mapping binds timeout to the float 15, not to the string. *)
Lemma string_default_is_converted :
  merged_config string_default_parser (environ string_default_state) = [] /\
  seeded_default string_default_option = PStr "15" /\
  deref string_default_state (defaults string_default_parser) !! Some "timeout"
  = Some (PStr "15") /\
  fst (get_default_values string_default_parser string_default_state) = Return 2 /\
  deref (snd (get_default_values string_default_parser string_default_state)) 2
    !! Some "timeout" = Some (PFloat 15%Z).
Proof. vm_compute. repeat split; reflexivity. Qed.

Lemma unwritten_destination_keeps_default_witness :
  exists v,
    deref (snd (get_default_values (main_parser []) (main_state [] []))) 2
      !! Some "log_file" = Some v /\
    exists opt_str,
      get_opt_string log_file_option = Return opt_str /\
      check_value log_file_option opt_str (PStr "pip.log") = Return v.
Proof.
  apply (unwritten_destination_keeps_default
           (main_parser []) (main_state [] [])
           (snd (get_default_values (main_parser []) (main_state [] [])))
           2 log_file_option 2).
  - cbn. lia.
  - reflexivity.
  - vm_compute. reflexivity.
  - vm_compute. reflexivity.
  - vm_compute. reflexivity.
  - vm_compute. reflexivity.
Defined.

(** ** C4: an empty value of the environment *)

(** C4, counterexample. The file gives timeout = 20.  Without the
    variable the resolved timeout is 20; with PIP_TIMEOUT set to the
    empty string it is the seeded default 15, not what the file, the
    lower-precedence source, produces. *)
Lemma empty_environment_value_masks_file_value :
  let self := main_parser [("global", [("timeout", "20")])] in
  deref (snd (update_defaults self 0
                (main_state [("global", [("timeout", "20")])] []))) 0
    !! Some "timeout" = Some (PFloat 20%Z) /\
  deref (snd (update_defaults self 0
                (main_state [("global", [("timeout", "20")])]
                   [("PIP_TIMEOUT", "")]))) 0
    !! Some "timeout" = Some (PInt 15).
Proof. vm_compute. split; reflexivity. Qed.

(** ** C6: upper case *)

(** C6, counterexample. YES is none of the twelve strings and it is not
    a value error: it coerces to 1, and PIP_NO_INPUT=YES resolves
    no_input to 1. *)
Lemma strtobool_ignores_case :
  ~ In "YES" ["y"; "yes"; "t"; "true"; "on"; "1";
              "n"; "no"; "f"; "false"; "off"; "0"] /\
  strtobool (Float := Z) (PStr "YES") = Return (PInt 1) /\
  fst (update_defaults (main_parser []) 0
         (main_state [] [("PIP_NO_INPUT", "YES")])) = Return 0 /\
  deref (snd (update_defaults (main_parser []) 0
                (main_state [] [("PIP_NO_INPUT", "YES")]))) 0
    !! Some "no_input" = Some (PInt 1).
Proof.
  split.
  - cbn. intros H. repeat (destruct H as [H | H]; [discriminate H |]). exact H.
  - vm_compute. repeat split; reflexivity.
Qed.

(** PIP_NO_INPUT=maybe makes the resolution raise; PIP_VERBOSE=Yes sets
    the counter verbose to 1, the items visited in reverse order. *)
Lemma flag_coercion_witness :
  (exists e,
     fst (update_defaults_from 0
            (PyDict.items (merged_config (main_parser [])
                             [("PIP_NO_INPUT", "maybe")]))
            (main_state [] [("PIP_NO_INPUT", "maybe")])) = Raise e) /\
  deref
    (snd (update_defaults_from 0
            (rev (PyDict.items (merged_config (main_parser [])
                                  [("PIP_VERBOSE", "Yes"); ("PIP_NO_INPUT", "off")])))
            (main_state [] [("PIP_VERBOSE", "Yes"); ("PIP_NO_INPUT", "off")]))) 0
    !! Some "verbose" = Some (PInt 1).
Proof.
  split.
  - destruct (flag_coercion (main_parser []) 0
                (main_state [] [("PIP_NO_INPUT", "maybe")])
                (main_state [] [("PIP_NO_INPUT", "maybe")])
                (PyDict.items (merged_config (main_parser [])
                                 [("PIP_NO_INPUT", "maybe")]))
                "--no-input" "maybe" 3 no_input_option) as (_ & _ & _ & H).
    + vm_compute. left. reflexivity.
    + discriminate.
    + vm_compute. reflexivity.
    + left. reflexivity.
    + reflexivity.
    + reflexivity.
    + apply H. cbn. intros H'.
      repeat (destruct H' as [H' | H']; [discriminate H' |]). exact H'.
  - destruct (flag_coercion (main_parser []) 0
                (main_state [] [("PIP_VERBOSE", "Yes"); ("PIP_NO_INPUT", "off")])
                (snd (update_defaults_from 0
                        (rev (PyDict.items
                                (merged_config (main_parser [])
                                   [("PIP_VERBOSE", "Yes"); ("PIP_NO_INPUT", "off")])))
                        (main_state [] [("PIP_VERBOSE", "Yes"); ("PIP_NO_INPUT", "off")])))
                (rev (PyDict.items
                        (merged_config (main_parser [])
                           [("PIP_VERBOSE", "Yes"); ("PIP_NO_INPUT", "off")])))
                "--verbose" "Yes" 7
                (make_option ["-v"; "--verbose"] count None "verbose"
                   (Some (PInt 0)) [])) as (_ & _ & H & _).
    + vm_compute. left. reflexivity.
    + discriminate.
    + vm_compute. reflexivity.
    + right. right. reflexivity.
    + reflexivity.
    + symmetry. apply Permutation_rev.
    + apply H.
      * vm_compute. right. left. reflexivity.
      * cbn. lia.
      * vm_compute. reflexivity.
      * vm_compute. reflexivity.
Defined.

(** ** C7: an invalid boolean token *)

(** C7. With PIP_NO_INPUT=maybe the resolution does not end in the exit
    status 3: [strtobool] is called before the [try], its [ValueError]
    passes through [update_defaults] and [get_default_values], nothing is
    printed, and the status of an uncaught exception is 1. *)
Theorem invalid_boolean_token_is_not_exit_3 :
  fst (get_default_values (main_parser [])
         (main_state [] [("PIP_NO_INPUT", "maybe")]))
  = Raise (ValueError (PStr "maybe")) /\
  stdout (snd (get_default_values (main_parser [])
                 (main_state [] [("PIP_NO_INPUT", "maybe")]))) = [] /\
  exit_status (Float := Z) (ValueError (PStr "maybe")) = 1%Z.
Proof. vm_compute. repeat split; reflexivity. Qed.

(** The other coercion failures do end in the status 3, with the key
    and the cause printed. *)
Example unparsable_float_exits_3 :
  fst (get_default_values (main_parser [])
         (main_state [] [("PIP_TIMEOUT", "abc")])) = Raise (SystemExit 3) /\
  stdout (snd (get_default_values (main_parser [])
                 (main_state [] [("PIP_TIMEOUT", "abc")])))
  = [ConfigurationError (InvalidValue "--timeout" float_t (PStr "abc"))].
Proof. vm_compute. split; reflexivity. Qed.

(** ** C8: [nargs] of a flag option *)

(** C8, counterexample. With PIP_NO_INPUT=1 the option --no-input,
    built with [nargs = None], has [nargs = 1] after the resolution. *)
Lemma flag_option_nargs_is_set :
  nargs <$> options (main_state [] [("PIP_NO_INPUT", "1")]) !! 3 = Some None /\
  nargs <$> options (snd (get_default_values (main_parser [])
                            (main_state [] [("PIP_NO_INPUT", "1")]))) !! 3
  = Some (Some 1%Z).
Proof. vm_compute. split; reflexivity. Qed.

(** ** C10: the parser's table after [get_default_values] *)

Lemma get_default_values_keeps_stored_defaults_witness :
  heap (snd (get_default_values (main_parser [("global", [("timeout", "20")])])
               (main_state [("global", [("timeout", "20")])] [])))
    !! defaults (main_parser [("global", [("timeout", "20")])])
  = heap (main_state [("global", [("timeout", "20")])] [])
      !! defaults (main_parser [("global", [("timeout", "20")])]) /\
  match fst (get_default_values (main_parser [("global", [("timeout", "20")])])
               (main_state [("global", [("timeout", "20")])] [])) with
  | Return l =>
      l <> defaults (main_parser [("global", [("timeout", "20")])]) /\
      length (heap (main_state [("global", [("timeout", "20")])] [])) <= l
  | Raise _ => True
  end.
Proof.
  apply (get_default_values_keeps_stored_defaults
           (main_parser [("global", [("timeout", "20")])])
           (main_state [("global", [("timeout", "20")])] [])).
  cbn. lia.
Defined.

(** * Further properties of the module *)

(** ** Spellings of a key *)

Lemma replace_char_app (a b : ascii) (s t : string) :
  PyStr.replace (String.append s t) (String a "") (String b "")
  = String.append (PyStr.replace s (String a "") (String b ""))
                  (PyStr.replace t (String a "") (String b "")).
Proof.
  induction s as [| c s IH]; [reflexivity |].
  change (String.append (String c s) t) with (String c (String.append s t)).
  rewrite (replace_char_cons a b c (String.append s t)), IH.
  now rewrite (replace_char_cons a b c s).
Qed.

(** X1. The underscore and the hyphen spell the same key, and so do a
    bare key and the long flag made of it: normalizing a key with its
    underscores already replaced gives the same key, and normalizing
    the key with two hyphens put before it gives the same key too,
    unless the key, once its underscores are replaced, starts with two
    hyphens already (as --x does, and __x and -_x too), which then get
    two more. *)
Theorem normalize_key_spellings (key : string) :
  normalize_key (PyStr.replace key "_" "-") = normalize_key key /\
  normalize_key (String.append "--" key)
  = if PyStr.startswith (PyStr.replace key "_" "-") "--"
    then String.append "--" (normalize_key key)
    else normalize_key key.
Proof.
  split.
  - unfold normalize_key.
    rewrite (replace_char_absent "_" "-" (PyStr.replace key "_" "-")); [reflexivity |].
    apply replace_char_removes. discriminate.
  - unfold normalize_key.
    rewrite (replace_char_app "_" "-" "--" key).
    change (PyStr.replace "--" "_" "-") with "--".
    rewrite prefix_dashes_app. cbn [negb].
    now destruct (PyStr.startswith (PyStr.replace key "_" "-") "--").
Qed.

(** ** The last pair of a source wins *)

Lemma set_length (k v : string) (d : PyDict.t) :
  length (PyDict.set k v d) <= S (length d).
Proof.
  induction d as [| [k' v'] d IH]; cbn; [lia |].
  destruct (String.eqb k k'); cbn; lia.
Qed.

Lemma normalize_keys_snoc (items : list (string * string)) (key val : string) :
  normalize_keys (items ++ [(key, val)])
  = PyDict.set (normalize_key key) val (normalize_keys items).
Proof. unfold normalize_keys. now rewrite fold_left_app. Qed.

(** X2. Within one source a later pair overwrites an earlier pair whose
    key normalizes to the same key, and leaves the other keys as they
    were; the dictionary has each key once and no more items than the
    source has pairs. *)
Theorem normalize_keys_last_wins (items : list (string * string))
    (key val k : string) :
  PyDict.get k (normalize_keys (items ++ [(key, val)]))
  = (if String.eqb k (normalize_key key) then Some val
     else PyDict.get k (normalize_keys items)) /\
  NoDup (map fst (normalize_keys items)) /\
  length (normalize_keys items) <= length items.
Proof.
  split_and!.
  - rewrite normalize_keys_snoc.
    destruct (String.eqb_spec k (normalize_key key)) as [-> | Hne].
    + apply get_set_eq.
    + apply get_set_ne. congruence.
  - apply normalize_keys_NoDup.
  - induction items as [| [k0 v0] items IH] using rev_ind; [cbn; lia |].
    rewrite normalize_keys_snoc, length_app. cbn.
    pose proof (set_length (normalize_key k0) v0 (normalize_keys items)). lia.
Qed.

(** ** Which option a key designates *)

Lemma normalized_key_second_char (key : string) :
  String.get 1 (normalize_key key) = Some "-"%char.
Proof.
  destruct (normalize_key_shape key) as [_ Hpre].
  unfold PyStr.startswith in Hpre.
  destruct (normalize_key key) as [| c1 [| c2 rest]];
    cbn [String.prefix] in Hpre; try discriminate.
  - destruct (ascii_dec "-" c1); discriminate.
  - destruct (ascii_dec "-" c1); [| discriminate].
    destruct (ascii_dec "-" c2) as [<- |]; [reflexivity | discriminate].
Qed.

(** X3. A normalized key never designates an option through a short
    option string: when the short option strings are what [optparse]
    admits (two characters, the second not a hyphen), [get_option] on a
    normalized key is the lookup among the long option strings. *)
Theorem normalized_key_skips_short_options {Float : Type}
    (opts : list (Option Float)) (key : string) :
  Forall (fun o =>
    Forall (fun s => String.get 1 s <> Some "-"%char) (_short_opts o)) opts ->
  get_option opts (normalize_key key)
  = list_find (fun o => normalize_key key ∈ _long_opts o) opts.
Proof.
  intros Hwf. unfold get_option.
  assert (Hnone : list_find (fun o => normalize_key key ∈ _short_opts o) opts = None).
  { apply list_find_None. eapply Forall_impl; [exact Hwf |].
    intros o Ho Hin. rewrite Forall_forall in Ho.
    apply (Ho _ Hin), normalized_key_second_char. }
  now rewrite Hnone.
Qed.

Lemma filter_one_unique {A} (f : A -> bool) (l : list A) (i j : nat) (x y : A) :
  length (List.filter f l) = 1 ->
  l !! i = Some x -> f x = true ->
  l !! j = Some y -> f y = true ->
  j = i.
Proof.
  revert i j. induction l as [| a l IH]; intros i j Hcount Hi Hx Hj Hy;
    [discriminate |].
  cbn [List.filter] in Hcount.
  destruct i as [| i], j as [| j]; cbn in Hi, Hj.
  - reflexivity.
  - injection Hi as ->. rewrite Hx in Hcount. cbn in Hcount.
    assert (H0 : length (List.filter f l) = 0) by lia.
    apply filter_length_0 in H0. rewrite Forall_forall in H0.
    apply list_elem_of_lookup_2 in Hj. rewrite (H0 _ Hj) in Hy. discriminate.
  - injection Hj as ->. rewrite Hy in Hcount. cbn in Hcount.
    assert (H0 : length (List.filter f l) = 0) by lia.
    apply filter_length_0 in H0. rewrite Forall_forall in H0.
    apply list_elem_of_lookup_2 in Hi. rewrite (H0 _ Hi) in Hx. discriminate.
  - f_equal. destruct (f a) eqn:Ha.
    + cbn in Hcount. assert (H0 : length (List.filter f l) = 0) by lia.
      apply filter_length_0 in H0. rewrite Forall_forall in H0.
      apply list_elem_of_lookup_2 in Hi. rewrite (H0 _ Hi) in Hx. discriminate.
    + eapply IH; eauto.
Qed.

(** X4. Every long option string of an option designates that option:
    when one option object only has the string among its option
    strings, [get_option] on the string returns that object, at its
    position, so that the aliases of an option lead to one object. *)
Theorem option_found_by_each_long_string {Float : Type}
    (opts : list (Option Float)) (i : nat) (o : Option Float) (s : string) :
  opts !! i = Some o ->
  s ∈ _long_opts o ->
  length (List.filter
            (fun o' => bool_decide (s ∈ _short_opts o' \/ s ∈ _long_opts o'))
            opts) = 1 ->
  get_option opts s = Some (i, o).
Proof.
  intros Hi Hs Hcount.
  assert (Huniq : forall j y, opts !! j = Some y ->
            s ∈ _short_opts y \/ s ∈ _long_opts y -> j = i).
  { intros j y Hj Hy.
    eapply (filter_one_unique _ opts i j o y Hcount); eauto;
      apply bool_decide_eq_true_2; auto. }
  unfold get_option.
  destruct (list_find (fun o' => s ∈ _short_opts o') opts) as [[j y] |] eqn:Hshort.
  - apply list_find_Some in Hshort as (Hj & Hy & _).
    assert (j = i) by eauto. subst j. congruence.
  - apply list_find_Some. split_and!; auto.
    intros j y Hj Hlt Hy. assert (j = i) by eauto. lia.
Qed.

(** ** The key of an environment variable *)

Lemma prefix_app (p r : string) : String.prefix p (String.append p r) = true.
Proof.
  induction p as [| c p IH]; [apply prefix_empty |].
  change (String.append (String c p) r) with (String c (String.append p r)).
  cbn [String.prefix].
  destruct (ascii_dec c c) as [_ | Hne]; [exact IH | now destruct Hne].
Qed.

Lemma replace_from_skip (old new t rest : string) :
  PyStr.replace_from (String.length t) old new (String.append t rest)
  = PyStr.replace_from 0 old new rest.
Proof. induction t as [| c t IH]; [reflexivity | exact IH]. Qed.

(** The prefix of a string is one occurrence: it is replaced and the
    scan goes on behind it. *)
Lemma replace_leading (p new rest : string) :
  p <> "" ->
  PyStr.replace (String.append p rest) p new
  = String.append new (PyStr.replace rest p new).
Proof.
  intros Hp. destruct p as [| c p]; [now destruct Hp |].
  unfold PyStr.replace.
  pose proof (prefix_app (String c p) rest) as Hpre.
  change (String.append (String c p) rest)
    with (String c (String.append p rest)) in *.
  cbn [PyStr.replace_from]. rewrite Hpre.
  replace (String.length (String c p) - 1) with (String.length p)
    by (cbn [String.length]; lia).
  now rewrite replace_from_skip.
Qed.

(** X5. A variable whose name is the prefix followed by a remainder is
    selected, with its value unchanged and before the pairs of the
    variables behind it; its raw key is the remainder with every further
    occurrence of the prefix removed, lower-cased, and lower-casing the
    key again changes nothing. *)
Theorem get_environ_vars_strips_prefix (prefix rest val : string)
    (env : list (string * string)) :
  prefix <> "" ->
  get_environ_vars ((String.append prefix rest, val) :: env) prefix
  = (PyStr.lower (PyStr.replace rest prefix ""), val)
      :: get_environ_vars env prefix /\
  PyStr.lower (PyStr.lower (PyStr.replace rest prefix ""))
  = PyStr.lower (PyStr.replace rest prefix "").
Proof.
  intros Hp. split; [| apply lower_idempotent].
  cbn [get_environ_vars]. unfold PyStr.startswith. rewrite prefix_app.
  now rewrite (replace_leading prefix "" rest Hp).
Qed.

(** ** What a resolution prints and what it touches *)

Section MoreProperties.

Context {Float : Type} `{!Builtins Float}.

Local Abbreviation pyval := (pyval Float).
Local Abbreviation exn := (exn Float).
Local Abbreviation outcome := (outcome Float).
Local Abbreviation Option := (Option Float).
Local Abbreviation State := (State Float).
Local Abbreviation M := (M Float).

(** The output of one step of the loop: nothing, or one line before
    [SystemExit 3], for an [OptionValueError] of the coercion. *)
Lemma item_output (d : loc) (k v : string) (st : State) :
  match update_defaults_item d (k, v) st with
  | (Return _, st') => stdout st' = stdout st
  | (Raise e, st') =>
      stdout st' = stdout st \/
      (e = SystemExit 3 /\
       exists i o m,
         get_option (options st) k = Some (i, o) /\ v <> "" /\
         coerced_value o k v = Raise (OptionValueError m) /\
         stdout st' = stdout st ++ [ConfigurationError m])
  end.
Proof.
  rewrite update_defaults_item_eq.
  destruct (get_option (options st) k) as [[i o] |] eqn:Hget; [| reflexivity].
  destruct (String.eqb_spec v "") as [-> | Hv]; [reflexivity |].
  pose proof (get_option_lookup _ _ _ _ Hget) as Hi.
  destruct (after_nargs_step i o st Hi) as (_ & _ & _ & Hout).
  cbv zeta.
  destruct (coerced_value o k v) as [val | e] eqn:Hc; [exact Hout |].
  destruct e; try (left; exact Hout).
  right. split; [reflexivity |]. exists i, o, msg. cbn. rewrite Hout. auto.
Qed.

Lemma loop_output (d : loc) (opts0 : list Option) (l : list (string * string)) :
  forall st : State,
    Forall2 nargs_update opts0 (options st) ->
    match for_each (update_defaults_item d) l st with
    | (Return _, st') => stdout st' = stdout st
    | (Raise e, st') =>
        stdout st' = stdout st \/
        (e = SystemExit 3 /\
         exists k v i o m,
           In (k, v) l /\ v <> "" /\
           get_option opts0 k = Some (i, o) /\
           coerced_value o k v = Raise (OptionValueError m) /\
           stdout st' = stdout st ++ [ConfigurationError m])
    end.
Proof.
  induction l as [| [k v] l IH]; intros st Hst; [reflexivity |].
  rewrite for_each_cons.
  pose proof (item_output d k v st) as Hitem.
  assert (Hst' : Forall2 nargs_update opts0
                   (options (snd (update_defaults_item d (k, v) st)))).
  { destruct (item_evolves d (k, v) st) as (_ & Ho & _).
    eauto using options_step_trans. }
  destruct (update_defaults_item d (k, v) st) as [[[] | e] st1]; cbn [snd] in Hst'.
  - specialize (IH st1 Hst').
    destruct (for_each (update_defaults_item d) l st1) as [[[] | e] st2].
    + congruence.
    + destruct IH as [IH | (-> & k' & v' & i & o & m & HIn & Hv & Hg & Hc & Hout)].
      * left. congruence.
      * right. split; [reflexivity |].
        exists k', v', i, o, m. rewrite <- Hitem. split_and!; auto. now right.
  - destruct Hitem as [Hitem | (-> & i & o1 & m & Hg & Hv & Hc & Hout)];
      [now left |].
    right. split; [reflexivity |].
    pose proof (get_option_step _ _ k Hst) as Hstep. rewrite Hg in Hstep.
    inversion Hstep as [[j o] b [Hij Hoo] Ha Hb |]; subst b.
    cbn in Hij, Hoo. subst j. symmetry in Ha.
    exists k, v, i, o, m. split_and!; auto; [now left |].
    now rewrite <- (coerced_value_nargs_update o o1 k v Hoo).
Qed.

Lemma check_loop_output (d : loc) (l : list Option) (st : State) :
  stdout (snd (for_each (check_default d) l st)) = stdout st.
Proof.
  apply (for_each_relates (fun st1 st2 => stdout st2 = stdout st1)).
  - reflexivity.
  - intros st1 st2 st3 H12 H23. congruence.
  - intros o st0. rewrite check_default_eq.
    destruct (deref st0 d !! dest o) as [[] |]; try reflexivity.
    destruct (get_opt_string o) as [opt_str |]; [| reflexivity].
    now destruct (check_value o opt_str (PStr s)).
Qed.

Lemma Values_output (d : loc) (st : State) :
  stdout (snd (Values d st)) = stdout st.
Proof. rewrite Values_eq. now destruct (decide _). Qed.

(** X6. A resolution that returns prints nothing; one that raises
    prints nothing or one line, the line of a configuration error, and
    in that case what it raises is [SystemExit 3].  This holds for
    [update_defaults] on any dictionary and for [get_default_values]. *)
Theorem resolution_output (self : ConfigOptionParser) (d : loc) (st : State) :
  match update_defaults self d st with
  | (Return _, st') => stdout st' = stdout st
  | (Raise e, st') =>
      stdout st' = stdout st \/
      (e = SystemExit 3 /\
       exists m, stdout st' = stdout st ++ [ConfigurationError m])
  end /\
  match get_default_values self st with
  | (Return _, st') => stdout st' = stdout st
  | (Raise e, st') =>
      stdout st' = stdout st \/
      (e = SystemExit 3 /\
       exists m, stdout st' = stdout st ++ [ConfigurationError m])
  end.
Proof.
  assert (Hloop : forall st0 : State,
    match for_each (update_defaults_item d)
            (PyDict.items (merged_config self (environ st))) st0 with
    | (Return _, st') => stdout st' = stdout st0
    | (Raise e, st') =>
        stdout st' = stdout st0 \/
        (e = SystemExit 3 /\
         exists m, stdout st' = stdout st0 ++ [ConfigurationError m])
    end).
  { intros st0.
    pose proof (loop_output d (options st0)
                  (PyDict.items (merged_config self (environ st))) st0
                  (options_step_refl _)) as H0.
    destruct (for_each _ _ st0) as [[[] | e] st']; [exact H0 |].
    destruct H0 as [H0 | (-> & k & v & i & o & m & _ & _ & _ & _ & Hout)];
      [now left | right; eauto]. }
  split.
  - rewrite update_defaults_eq. specialize (Hloop st).
    now destruct (for_each _ _ st) as [[[] | e] st'].
  - rewrite get_default_values_eq.
    destruct (negb (process_default_values self)).
    { pose proof (Values_output (defaults self) st) as HV.
      destruct (Values (defaults self) st) as [[l | e] st']; cbn in HV; auto. }
    cbv zeta. clear Hloop.
    set (d1 := length (heap st)).
    set (st1 := mkState (environ st) (options st)
                  (heap st ++ [deref st (defaults self)]) (stdout st)).
    pose proof (loop_output d1 (options st1)
                  (PyDict.items (merged_config self (environ st))) st1
                  (options_step_refl _)) as H0.
    change (stdout st1) with (stdout st) in H0.
    destruct (for_each (update_defaults_item d1) _ st1) as [[[] | e] st2].
    2:{ destruct H0 as [H0 | (-> & k & v & i & o & m & _ & _ & _ & _ & Hout)];
          [now left | right; eauto]. }
    pose proof (check_loop_output d1 (options st2) st2) as H2.
    destruct (for_each (check_default d1) _ st2) as [[[] | e] st3];
      cbn [snd] in H2.
    2:{ left. congruence. }
    pose proof (Values_output d1 st3) as HV.
    destruct (Values d1 st3) as [[l | e] st']; cbn in HV;
      [congruence | left; congruence].
Qed.

(** *** The key named by the message *)

Lemma check_value_error_opt (o : Option) (opt : string) (v : pyval)
    (m : ove_msg Float) :
  (forall what v' m', builtin_cvt what v' <> Raise (OptionValueError m')) ->
  check_value o opt v = Raise (OptionValueError m) -> ove_opt m = opt.
Proof.
  intros Hcvt. unfold check_value, check_builtin, check_choice.
  destruct (type o) as [[| what |] |]; try discriminate.
  - pose proof (Hcvt what v) as Hne.
    destruct (builtin_cvt what v) as [r | []]; try discriminate.
    + intros [= <-]. destruct (Hne msg eq_refl).
    + intros [= <-]. reflexivity.
  - destruct v; try (intros [= <-]; reflexivity).
    destruct (existsb _ _); [discriminate | intros [= <-]; reflexivity].
Qed.

Lemma check_values_error_opt (o : Option) (opt : string) (vs : list pyval)
    (m : ove_msg Float) :
  (forall what v' m', builtin_cvt what v' <> Raise (OptionValueError m')) ->
  check_values o opt vs = Raise (OptionValueError m) -> ove_opt m = opt.
Proof.
  intros Hcvt. induction vs as [| v vs IH]; [discriminate |].
  cbn [check_values].
  destruct (check_value o opt v) as [v' | e] eqn:Hv.
  - destruct (check_values o opt vs) as [vs' | e]; [discriminate |].
    intros [= ->]. now apply IH.
  - intros [= ->]. eapply check_value_error_opt; eauto.
Qed.

Lemma coerced_value_error_opt (o : Option) (k v : string) (m : ove_msg Float) :
  (forall what v' m', builtin_cvt what v' <> Raise (OptionValueError m')) ->
  coerced_value o k v = Raise (OptionValueError m) -> ove_opt m = k.
Proof.
  intros Hcvt. unfold coerced_value.
  assert (Hconv : forall (o' : Option) (val : pyval),
    convert_value o' k val = Raise (OptionValueError m) -> ove_opt m = k).
  { intros o' val. unfold convert_value.
    assert (Hiter :
      match iterate val with
      | Some vs =>
          match check_values o' k vs with
          | Return vs' => Return (PTuple vs')
          | Raise e => Raise e
          end
      | None => Raise TypeError
      end = Raise (OptionValueError m) -> ove_opt m = k).
    { destruct (iterate val) as [vs |]; [| discriminate].
      destruct (check_values o' k vs) as [vs' | e] eqn:Hvs; [discriminate |].
      intros [= ->]. eapply check_values_error_opt; eauto. }
    destruct val; try discriminate;
      destruct (nargs o') as [[| [] |] |]; try exact Hiter;
      apply (check_value_error_opt o' k _ m Hcvt). }
  destruct (Action_eqb (action o) append).
  - destruct (is_flag_action (action o)); [discriminate | apply Hconv].
  - cbn [action set_nargs].
    destruct (is_flag_action (action o)); [| apply Hconv].
    unfold strtobool.
    destruct (existsb _ true_tokens); [apply Hconv |].
    destruct (existsb _ false_tokens); [apply Hconv | discriminate].
Qed.

(** X7. When the builtins raise no [OptionValueError] of their own, the
    line that a failed resolution prints names a key of the merged
    mapping: a key that designates an option and has a non-empty value
    there. *)
Theorem printed_error_names_key (self : ConfigOptionParser) (d : loc)
    (st : State) (m : ove_msg Float) :
  (forall what v m', builtin_cvt what v <> Raise (OptionValueError m')) ->
  stdout (snd (update_defaults self d st)) = stdout st ++ [ConfigurationError m] ->
  exists v,
    In (ove_opt m, v) (PyDict.items (merged_config self (environ st))) /\
    v <> "" /\
    is_Some (get_option (options st) (ove_opt m)).
Proof.
  intros Hcvt. rewrite update_defaults_eq.
  pose proof (loop_output d (options st)
                (PyDict.items (merged_config self (environ st))) st
                (options_step_refl _)) as H0.
  assert (Hlen : stdout st <> stdout st ++ [ConfigurationError m]).
  { intros Heq. apply (f_equal length) in Heq.
    rewrite length_app in Heq. cbn in Heq. lia. }
  destruct (for_each _ _ st) as [[[] | e] st']; cbn [snd].
  - intros Hout. rewrite H0 in Hout. contradiction.
  - destruct H0 as [H0 | (_ & k & v & i & o & m' & HIn & Hv & Hg & Hc & Hout)].
    + intros Hout'. rewrite H0 in Hout'. contradiction.
    + intros Hout'. rewrite Hout in Hout'.
      apply app_inv_head in Hout'. injection Hout' as ->.
      rewrite (coerced_value_error_opt o k v m Hcvt Hc).
      exists v. rewrite Hg. split_and!; eauto.
Qed.

(** X8. [update_defaults] writes to the dictionary it is given and to
    no other: every other dictionary of the store has the bindings it
    had, no dictionary is created, and the environment is as it was,
    whatever the outcome. *)
Theorem update_defaults_touches_one_dictionary (self : ConfigOptionParser)
    (d l : loc) (st : State) :
  l <> d ->
  heap (snd (update_defaults self d st)) !! l = heap st !! l /\
  length (heap (snd (update_defaults self d st))) = length (heap st) /\
  environ (snd (update_defaults self d st)) = environ st.
Proof.
  intros Hne.
  destruct (update_defaults_evolves self d st) as (He & _ & Hl & Hh). auto.
Qed.

(** ** Values of list options *)

(** X9. A value from the file or the environment for an [append] option
    of type [choice] with [nargs = 1] never passes, be it one of the
    choices: the list that [split] returns is checked as one choice, the
    check fails, and the resolution raises. *)
Theorem append_choice_value_always_fails (self : ConfigOptionParser) (d : loc)
    (st : State) (k v : string) (i : nat) (o : Option) :
  In (k, v) (PyDict.items (merged_config self (environ st))) ->
  v <> "" ->
  get_option (options st) k = Some (i, o) ->
  action o = append ->
  type o = Some choice ->
  nargs o = Some 1%Z ->
  coerced_value o k v
  = Raise (OptionValueError
             (InvalidChoice k (PList (map PStr (PyStr.split v))) (choices o))) /\
  exists e, fst (update_defaults self d st) = Raise e.
Proof.
  intros HIn Hv Hget Hact Htype Hnargs.
  assert (Hc : coerced_value o k v
    = Raise (OptionValueError
               (InvalidChoice k (PList (map PStr (PyStr.split v))) (choices o)))).
  { unfold coerced_value. rewrite Hact. cbn [Action_eqb].
    rewrite Hact. cbn [is_flag_action Action_eqb orb].
    unfold convert_value. rewrite Hnargs.
    unfold check_value. rewrite Htype. reflexivity. }
  split; [exact Hc |].
  rewrite update_defaults_eq.
  destruct (for_each_raises
              (fun st' => Forall2 nargs_update (options st) (options st'))
              (update_defaults_item d) (k, v)) with
    (l := PyDict.items (merged_config self (environ st))) (st := st)
    as [e He].
  - intros y st1. apply options_step_item.
  - intros st1 Hst1.
    pose proof (get_option_step _ _ k Hst1) as Hstep. rewrite Hget in Hstep.
    inversion Hstep as [a [j o1] [Hij Hoo] Ha Hb |]; subst a.
    cbn in Hij, Hoo. subst j. symmetry in Hb.
    rewrite update_defaults_item_eq, Hb.
    destruct (String.eqb_spec v "") as [-> | _]; [now destruct Hv |].
    cbv zeta. rewrite (coerced_value_nargs_update o o1 k v Hoo), Hc. eauto.
  - exact HIn.
  - apply options_step_refl.
  - destruct (for_each _ _ st) as [[[] | e'] st1]; [discriminate | eauto].
Qed.

Lemma split_from_words (s : string) :
  forall cur : list ascii,
    Forall (fun c => PyStr.isspace c = false) cur ->
    Forall (fun w => w <> "" /\
                     Forall (fun c => PyStr.isspace c = false)
                       (list_ascii_of_string w))
      (PyStr.split_from cur s).
Proof.
  assert (Hflush : forall (cur : list ascii) (rest : list string),
    Forall (fun c => PyStr.isspace c = false) cur ->
    Forall (fun w => w <> "" /\
                     Forall (fun c => PyStr.isspace c = false)
                       (list_ascii_of_string w)) rest ->
    Forall (fun w => w <> "" /\
                     Forall (fun c => PyStr.isspace c = false)
                       (list_ascii_of_string w))
      match cur with
      | [] => rest
      | _ => string_of_list_ascii (rev cur) :: rest
      end).
  { intros cur rest Hcur Hrest. destruct cur as [| c cur]; [exact Hrest |].
    constructor; [| exact Hrest]. split.
    - intros Hemp. apply (f_equal list_ascii_of_string) in Hemp.
      rewrite list_ascii_of_string_of_list_ascii in Hemp. cbn in Hemp.
      now apply app_eq_nil in Hemp as [_ Hemp].
    - rewrite list_ascii_of_string_of_list_ascii. now apply Forall_rev. }
  induction s as [| c s IH]; intros cur Hcur; cbn [PyStr.split_from].
  - apply Hflush; [exact Hcur | constructor].
  - destruct (PyStr.isspace c) eqn:Hc.
    + apply Hflush; [exact Hcur | apply IH; constructor].
    + apply IH. now constructor.
Qed.

(** X10. A value for an [append] option without a type check (no type
    or the type [string], [nargs = 1]) is coerced to the list of its
    words, whatever it is: the words are not empty and hold no blank, so
    that a value of blanks only gives the empty list. *)
Theorem list_option_words (o : Option) (k v : string) :
  action o = append ->
  type o = None \/ type o = Some string_t ->
  nargs o = Some 1%Z ->
  coerced_value o k v = Return (PList (map PStr (PyStr.split v))) /\
  Forall (fun w => w <> "" /\
                   Forall (fun c => PyStr.isspace c = false)
                     (list_ascii_of_string w))
    (PyStr.split v).
Proof.
  intros Hact Htype Hnargs. split.
  - unfold coerced_value. rewrite Hact. cbn [Action_eqb].
    rewrite Hact. cbn [is_flag_action Action_eqb orb].
    unfold convert_value. rewrite Hnargs. unfold check_value.
    now destruct Htype as [-> | ->].
  - apply split_from_words. constructor.
Qed.

(** ** Without the processing of defaults *)

(** X11. With [process_default_values] off, [get_default_values] reads
    neither the file nor the environment: it changes no option object,
    prints nothing, keeps every dictionary, and returns a new object
    with the bindings of the stored defaults, or raises [TypeError]
    when one of their names is not a string. *)
Theorem get_default_values_without_processing (self : ConfigOptionParser)
    (st : State) :
  process_default_values self = false ->
  options (snd (get_default_values self st)) = options st /\
  stdout (snd (get_default_values self st)) = stdout st /\
  match get_default_values self st with
  | (Return l, st') =>
      deref st' l = deref st (defaults self) /\
      heap st' = heap st ++ [deref st (defaults self)]
  | (Raise e, st') => e = TypeError /\ st' = st
  end.
Proof.
  intros Hpdv. rewrite get_default_values_eq, Hpdv. cbn [negb].
  rewrite Values_eq.
  destruct (decide (is_Some (deref st (defaults self) !! None))); cbn.
  - auto.
  - split_and!; auto. unfold deref at 1. cbn. now rewrite list_lookup_middle.
Qed.

(** ** The main parser reads [global] twice *)

Lemma set_same (k v : string) (d : PyDict.t) :
  PyDict.get k d = Some v -> PyDict.set k v d = d.
Proof.
  induction d as [| [k' v'] d IH]; [discriminate |]. cbn.
  destruct (String.eqb k k'); [now intros [= ->] |].
  intros Hget. now rewrite IH.
Qed.

Lemma get_In_NoDup (k v : string) (d : PyDict.t) :
  NoDup (map fst d) -> In (k, v) d -> PyDict.get k d = Some v.
Proof.
  induction d as [| [k' v'] d IH]; [intros _ [] |].
  cbn [map fst]. intros [Hk' Hnd]%NoDup_cons [[= -> ->] | HIn]; cbn.
  - now rewrite String.eqb_refl.
  - destruct (String.eqb_spec k k') as [-> | _]; [| now apply IH].
    destruct Hk'. apply list_elem_of_In.
    change k' with (fst (k', v)). now apply in_map.
Qed.

Lemma update_same (d o : PyDict.t) :
  (forall k v, In (k, v) o -> PyDict.get k d = Some v) ->
  PyDict.update d o = d.
Proof.
  induction o as [| [k v] o IH]; intros Hall; [reflexivity |].
  rewrite update_cons, set_same; [apply IH |]; intros; apply Hall;
    [now right | now left].
Qed.

(** X12. A parser named global, as the main parser is, merges the
    section [global] twice, and the second time changes nothing: the
    merged mapping is the normalized section updated with the
    normalized environment variables. *)
Theorem global_section_merged_once (self : ConfigOptionParser)
    (env : list (string * string)) :
  name self = "global" ->
  merged_config self env
  = PyDict.update (normalize_keys (get_config_section self "global"))
      (normalize_keys (get_environ_vars env "PIP_")).
Proof.
  intros Hname. unfold merged_config. rewrite Hname. cbn [fold_left].
  f_equal.
  set (G := normalize_keys (get_config_section self "global")).
  pose proof (normalize_keys_NoDup (get_config_section self "global")) as Hnd.
  fold G in Hnd.
  assert (HG : PyDict.update [] G = G).
  { unfold PyDict.update. now rewrite (fold_set_NoDup G []). }
  rewrite HG. apply update_same.
  intros k v. now apply get_In_NoDup.
Qed.

(** ** Resolving twice *)

Lemma item_write_step (opts opts' : list Option) (kv : string * string) :
  Forall2 nargs_update opts opts' -> item_write opts' kv = item_write opts kv.
Proof.
  intros Hstep. unfold item_write.
  destruct (get_option_step opts opts' (fst kv) Hstep)
    as [[i o] [j o'] [_ Hoo] |]; [| reflexivity].
  cbn in Hoo. rewrite (coerced_value_nargs_update o o' _ _ Hoo).
  apply nargs_update_fields in Hoo as (_ & _ & _ & _ & -> & _). reflexivity.
Qed.

Lemma item_passes_step (opts opts' : list Option) (kv : string * string) :
  Forall2 nargs_update opts opts' -> item_passes opts' kv = item_passes opts kv.
Proof.
  intros Hstep. unfold item_passes.
  destruct (get_option_step opts opts' (fst kv) Hstep)
    as [[i o] [j o'] [_ Hoo] |]; [| reflexivity].
  cbn in Hoo. now rewrite (coerced_value_nargs_update o o' _ _ Hoo).
Qed.

Lemma nargs_settled_step (opts opts' : list Option) (kv : string * string) :
  Forall2 nargs_update opts opts' ->
  nargs_settled opts kv = true -> nargs_settled opts' kv = true.
Proof.
  intros Hstep. unfold nargs_settled.
  destruct (String.eqb (snd kv) ""); [reflexivity |]. cbn [orb].
  destruct (get_option_step opts opts' (fst kv) Hstep)
    as [[i o] [j o'] [_ Hoo] |]; [| reflexivity].
  cbn in Hoo. destruct Hoo as [-> | [Ha ->]]; [auto |].
  intros _. cbn [action nargs set_nargs].
  rewrite bool_decide_eq_true_2 by reflexivity. apply orb_true_r.
Qed.

Lemma apply_writes_step (opts opts' : list Option) (l : list (string * string))
    (m : gmap (Datatypes.option string) pyval) :
  Forall2 nargs_update opts opts' -> apply_writes opts' l m = apply_writes opts l m.
Proof.
  intros Hstep. unfold apply_writes. revert m.
  induction l as [| kv l IH]; intros m; [reflexivity |].
  cbn [fold_left]. now rewrite IH, (item_write_step opts opts' kv Hstep).
Qed.

Lemma apply_writes_union (opts : list Option) (l : list (string * string))
    (a m : gmap (Datatypes.option string) pyval) :
  apply_writes opts l (a ∪ m) = apply_writes opts l a ∪ m.
Proof.
  unfold apply_writes. revert a.
  induction l as [| kv l IH]; intros a; [reflexivity |].
  cbn [fold_left]. destruct (item_write opts kv) as [[dn val] |]; [| apply IH].
  rewrite insert_union_l. apply IH.
Qed.

(** Applying the assignments of a list of items twice is applying them
    once. *)
Lemma apply_writes_idempotent (opts : list Option) (l : list (string * string))
    (m : gmap (Datatypes.option string) pyval) :
  apply_writes opts l (apply_writes opts l m) = apply_writes opts l m.
Proof.
  assert (H : forall m0, apply_writes opts l m0 = apply_writes opts l ∅ ∪ m0).
  { intros m0. now rewrite <- apply_writes_union, (left_id_L ∅ (∪)). }
  rewrite (H (apply_writes opts l m)), (H m).
  now rewrite (assoc_L (∪)), (idemp_L (∪)).
Qed.

(** The state after a step that returns. *)
Lemma item_run (d : loc) (kv : string * string) (st st' : State) :
  update_defaults_item d kv st = (Return tt, st') ->
  item_passes (options st) kv = true /\
  nargs_settled (options st') kv = true /\
  environ st' = environ st /\ stdout st' = stdout st /\
  heap st' = alter (apply_writes (options st) [kv]) d (heap st).
Proof.
  destruct kv as [k v]. rewrite update_defaults_item_eq.
  unfold item_passes, nargs_settled, apply_writes, item_write.
  cbn [fst snd fold_left].
  destruct (get_option (options st) k) as [[i o] |] eqn:Hget.
  2:{ intros [= <-]. rewrite Hget. rewrite orb_true_r.
      split_and!; auto. symmetry. now apply list_alter_id. }
  destruct (String.eqb v "") eqn:Hv.
  { intros [= <-]. split_and!; auto. symmetry. now apply list_alter_id. }
  cbv zeta. cbn [orb].
  pose proof (get_option_lookup _ _ _ _ Hget) as Hi.
  destruct (after_nargs_step i o st Hi) as (He & Ho & Hh & Hout).
  destruct (coerced_value o k v) as [val | e]; [| destruct e; discriminate].
  intros [= <-]. cbn. rewrite Hh.
  split_and!; auto.
  pose proof (get_option_step _ _ k Ho) as Hstep. rewrite Hget in Hstep.
  inversion Hstep as [a [j o1] [Hij Hoo] Ha Hb |]; subst a.
  cbn in Hij, Hoo. subst j.
  pose proof (get_option_lookup _ _ _ _ (eq_sym Hb)) as Hi1.
  unfold after_nargs in Hi1 |- *.
  destruct (Action_eqb (action o) append) eqn:Happ.
  - rewrite Hi in Hi1. injection Hi1 as <-. now rewrite Happ.
  - cbn in Hi1.
    rewrite list_lookup_insert_eq in Hi1 by (eapply lookup_lt_Some; eauto).
    injection Hi1 as <-. cbn [action nargs set_nargs].
    rewrite bool_decide_eq_true_2 by reflexivity. apply orb_true_r.
Qed.

Lemma alter_alter {A} (f g : A -> A) (i : nat) (l : list A) :
  alter f i (alter g i l) = alter (fun x => f (g x)) i l.
Proof.
  apply list_eq. intros j. destruct (decide (i = j)) as [<- | Hne].
  - rewrite !list_lookup_alter_eq. now destruct (l !! i).
  - now rewrite !list_lookup_alter_ne.
Qed.

Lemma all_pass_step (opts opts' : list Option) (l : list (string * string)) :
  Forall2 nargs_update opts opts' ->
  forallb (item_passes opts') l = forallb (item_passes opts) l.
Proof.
  intros Hstep. induction l as [| kv l IH]; [reflexivity |].
  cbn [forallb]. now rewrite IH, (item_passes_step opts opts' kv Hstep).
Qed.

Lemma all_settled_step (opts opts' : list Option) (l : list (string * string)) :
  Forall2 nargs_update opts opts' ->
  forallb (nargs_settled opts) l = true -> forallb (nargs_settled opts') l = true.
Proof.
  intros Hstep. induction l as [| kv l IH]; [reflexivity |].
  cbn [forallb]. intros [Hkv Hl]%andb_true_iff.
  now rewrite (nargs_settled_step opts opts' kv Hstep Hkv), IH.
Qed.

(** The state after a loop that returns. *)
Lemma loop_run (d : loc) (l : list (string * string)) :
  forall st st' : State,
    for_each (update_defaults_item d) l st = (Return tt, st') ->
    forallb (item_passes (options st)) l = true /\
    forallb (nargs_settled (options st')) l = true /\
    environ st' = environ st /\ stdout st' = stdout st /\
    heap st' = alter (apply_writes (options st) l) d (heap st).
Proof.
  induction l as [| kv l IH]; intros st st'.
  - intros [= <-]. split_and!; auto. symmetry. now apply list_alter_id.
  - rewrite for_each_cons.
    pose proof (item_evolves d kv st) as (_ & Ho1 & _).
    destruct (update_defaults_item d kv st) as [[[] | e] st1] eqn:Hitem;
      [| discriminate].
    cbn [snd] in Ho1. intros Hrun.
    destruct (item_run d kv st st1 Hitem) as (Hp & Hs & He & Hout & Hh).
    destruct (IH st1 st' Hrun) as (Hp' & Hs' & He' & Hout' & Hh').
    pose proof (loop_evolves d l st1) as (_ & Ho2 & _).
    rewrite Hrun in Ho2. cbn [snd] in Ho2.
    cbn [forallb]. rewrite Hp, Hs'.
    rewrite (nargs_settled_step _ _ kv Ho2 Hs).
    split_and!; auto; try congruence.
    + cbn [andb]. now rewrite <- (all_pass_step _ _ l Ho1).
    + rewrite Hh', Hh, alter_alter. apply list_alter_ext; [| reflexivity].
      intros m _. unfold apply_writes at 3. cbn [fold_left].
      now rewrite (apply_writes_step _ _ l _ Ho1).
Qed.

(** A loop over items that all pass, from a state in which their
    options have their [nargs] set, returns and changes the dictionary
    only. *)
Lemma loop_rerun (d : loc) (l : list (string * string)) :
  forall s : State,
    forallb (nargs_settled (options s)) l = true ->
    forallb (item_passes (options s)) l = true ->
    for_each (update_defaults_item d) l s
    = (Return tt,
       mkState (environ s) (options s)
               (alter (apply_writes (options s) l) d (heap s)) (stdout s)).
Proof.
  induction l as [| [k v] l IH]; intros s Hset Hpass.
  - cbn [for_each]. unfold ret. f_equal. destruct s as [e o h out]. cbn.
    f_equal. symmetry. now apply list_alter_id.
  - cbn [forallb] in Hset, Hpass.
    apply andb_true_iff in Hset as [Hs Hset].
    apply andb_true_iff in Hpass as [Hp Hpass].
    rewrite for_each_cons, update_defaults_item_eq.
    unfold nargs_settled in Hs. unfold item_passes in Hp. cbn [fst snd] in Hs, Hp.
    assert (Hskip : item_write (options s) (k, v) = None ->
      for_each (update_defaults_item d) l s
      = (Return tt,
         mkState (environ s) (options s)
                 (alter (apply_writes (options s) ((k, v) :: l)) d (heap s))
                 (stdout s))).
    { intros Hw. rewrite (IH s Hset Hpass). do 2 f_equal.
      apply list_alter_ext; [| reflexivity].
      intros m _. unfold apply_writes. cbn [fold_left]. now rewrite Hw. }
    destruct (get_option (options s) k) as [[i o] |] eqn:Hget.
    2:{ apply Hskip. unfold item_write. cbn [fst]. now rewrite Hget. }
    destruct (String.eqb v "") eqn:Hv.
    { apply Hskip. unfold item_write. cbn [fst snd]. now rewrite Hget, Hv. }
    cbn [orb] in Hs, Hp. cbv zeta.
    assert (Hafter : after_nargs i o s = s).
    { unfold after_nargs.
      destruct (Action_eqb (action o) append); [reflexivity |].
      cbn [orb] in Hs. apply bool_decide_eq_true in Hs.
      assert (Ho : set_nargs o (Some 1%Z) = o).
      { destruct o. cbn in Hs. subst. reflexivity. }
      rewrite Ho, (list_insert_id _ _ _ (get_option_lookup _ _ _ _ Hget)).
      now destruct s. }
    rewrite Hafter.
    destruct (coerced_value o k v) as [val | e] eqn:Hc; [| discriminate].
    set (s1 := mkState (environ s) (options s)
                 (alter (insert (dest o) val) d (heap s)) (stdout s)).
    rewrite (IH s1 Hset Hpass). cbn [environ options heap stdout s1].
    do 2 f_equal. rewrite alter_alter.
    apply list_alter_ext; [| reflexivity].
    intros m _. unfold apply_writes, item_write. cbn [fold_left fst snd].
    now rewrite Hget, Hv, Hc.
Qed.

(** X13. Resolving again changes nothing: when [update_defaults] on a
    dictionary returns, a second [update_defaults] on the same
    dictionary, in the state the first one left, returns too and leaves
    that state as it is.  So the defaults that the help formatter
    updates in place before each option are the same after every
    update. *)
Theorem update_defaults_twice (self : ConfigOptionParser) (d : loc)
    (st st1 : State) :
  update_defaults self d st = (Return d, st1) ->
  update_defaults self d st1 = (Return d, st1).
Proof.
  rewrite !update_defaults_eq.
  pose proof (loop_evolves d (PyDict.items (merged_config self (environ st))) st)
    as (_ & Ho & _).
  destruct (for_each (update_defaults_item d)
              (PyDict.items (merged_config self (environ st))) st)
    as [[[] | e] st1'] eqn:Hrun; [| discriminate].
  intros [= ->]. cbn [snd] in Ho.
  destruct (loop_run d _ st st1 Hrun) as (Hp & Hs & He & Hout & Hh).
  rewrite He.
  rewrite (loop_rerun d _ st1 Hs); [| now rewrite (all_pass_step _ _ _ Ho)].
  do 2 f_equal.
  assert (Hheap : alter (apply_writes (options st1)
                           (PyDict.items (merged_config self (environ st))))
                    d (heap st1) = heap st1).
  { rewrite Hh at 1. rewrite alter_alter. rewrite Hh.
    apply list_alter_ext; [| reflexivity].
    intros m _. rewrite (apply_writes_step _ _ _ _ Ho).
    apply apply_writes_idempotent. }
  rewrite Hheap. now destruct st1.
Qed.

(** ** A variable for no option *)











End MoreProperties.

(** ** The help formatter and the configuration file *)

Lemma append_empty (s : string) : String.append s "" = s.
Proof.
  induction s as [| a s IH]; [reflexivity |].
  change (String a (String.append s "") = String a s). now rewrite IH.
Qed.

Lemma str_mod_angle {Float : Type} (metavar : string) :
  str_mod (Float := Float) " <%s>" metavar
  = Return (String.append " <" (String.append metavar ">")).
Proof. reflexivity. Qed.

(** X15. For an option with a short and a long option string, the help
    shows the first short one, a comma and the first long one, and no
    other alias; an option that takes a value gets its metavar between
    angle brackets behind them, taken as it is, or the lower-cased
    destination when the metavar is missing or empty, and without a
    metavar and a destination the formatting is an [AttributeError]. *)
Theorem format_option_strings_shown {Float : Type} (o : Option Float)
    (metavar : Datatypes.option string) (s l : string) (ss ls : list string) :
  _short_opts o = s :: ss ->
  _long_opts o = l :: ls ->
  format_option_strings o metavar =
  match type o, metavar, dest o with
  | None, _, _ => Return (String.append s (String.append ", " l))
  | Some _, Some (String c m), _ =>
      Return (String.append s (String.append ", " (String.append l
                (String.append " <" (String.append (String c m) ">")))))
  | Some _, _, Some dn =>
      Return (String.append s (String.append ", " (String.append l
                (String.append " <" (String.append (PyStr.lower dn) ">")))))
  | Some _, _, None => Raise AttributeError
  end.
Proof.
  intros Hs Hl. unfold format_option_strings, _format_option_strings, takes_value.
  rewrite Hs, Hl. cbn [app].
  assert (Hjoin : forall shown : string,
    str_join [s; ", "; l; shown]
    = String.append s (String.append ", " (String.append l shown))).
  { intros shown. unfold str_join. cbn [fold_right].
    now rewrite append_empty. }
  assert (Hplain : str_join [s; ", "; l]
                   = String.append s (String.append ", " l)).
  { unfold str_join. cbn [fold_right]. now rewrite append_empty. }
  destruct (type o) as [t |]; [| now rewrite Hplain].
  destruct metavar as [[| c m] |].
  - destruct (dest o) as [dn |]; [| reflexivity].
    now rewrite str_mod_angle, Hjoin.
  - now rewrite str_mod_angle, Hjoin.
  - destruct (dest o) as [dn |]; [| reflexivity].
    now rewrite str_mod_angle, Hjoin.
Qed.

(** X16. [get_config_files] returns one file: the default one, or the
    file that PIP_CONFIG_FILE names when the variable is set, not empty
    and names a file that exists; a name of no file falls back to the
    default without an error. *)
Theorem get_config_files_one_file (env : list (string * string))
    (exists_ : string -> bool) (default_config_file : string) :
  exists f,
    get_config_files env exists_ default_config_file = [f] /\
    (f = default_config_file \/
     (environ_get env "PIP_CONFIG_FILE" = Some f /\ f <> "" /\ exists_ f = true)).
Proof.
  unfold get_config_files.
  destruct (environ_get env "PIP_CONFIG_FILE") as [f |]; [| eauto].
  destruct (String.eqb_spec f "") as [-> | Hne]; cbn [negb andb]; [eauto |].
  destruct (exists_ f) eqn:He; eauto 10.
Qed.

(** ** The further properties on the main parser *)

Lemma normalized_key_skips_short_options_witness :
  get_option (options (main_state [] [])) (normalize_key "timeout")
  = list_find (fun o => normalize_key "timeout" ∈ _long_opts o)
      (options (main_state [] [])).
Proof.
  apply (normalized_key_skips_short_options (options (main_state [] [])) "timeout").
  apply Forall_forall. intros o Ho. apply Forall_forall. intros s Hs.
  apply list_elem_of_In in Ho. apply list_elem_of_In in Hs.
  vm_compute in Ho.
  repeat (destruct Ho as [<- | Ho];
          [vm_compute in Hs;
           repeat (destruct Hs as [<- | Hs]; [discriminate |]);
           destruct Hs |]).
  destruct Ho.
Defined.

Lemma option_found_by_each_long_string_witness :
  get_option (options (main_state [] [])) "--default-timeout"
  = Some (12, timeout_option).
Proof.
  apply (option_found_by_each_long_string
           (options (main_state [] [])) 12 timeout_option "--default-timeout").
  - reflexivity.
  - apply list_elem_of_In. vm_compute. right. left. reflexivity.
  - vm_compute. reflexivity.
Defined.

Lemma get_environ_vars_strips_prefix_witness :
  get_environ_vars [("PIP_TIMEOUT", "5")] "PIP_" = [("timeout", "5")].
Proof.
  apply (get_environ_vars_strips_prefix "PIP_" "TIMEOUT" "5" []).
  discriminate.
Defined.

Lemma decimal_cvt_no_option_error (what : builtin_type) (v : pyval Z)
    (m : ove_msg Z) :
  builtin_cvt what v <> Raise (OptionValueError m).
Proof.
  unfold builtin_cvt, decimal_cvt.
  destruct v as [| | | | s | |]; try discriminate.
  destruct s as [| c s]; [discriminate |].
  destruct (decimal_from 0 (String c s)); [destruct what |]; discriminate.
Qed.

Lemma printed_error_names_key_witness :
  exists v,
    In ("--timeout", v)
       (PyDict.items (merged_config (main_parser [])
                        (environ (main_state [] [("PIP_TIMEOUT", "abc")])))) /\
    v <> "" /\
    is_Some (get_option (options (main_state [] [("PIP_TIMEOUT", "abc")]))
               "--timeout").
Proof.
  apply (printed_error_names_key (main_parser []) 0
           (main_state [] [("PIP_TIMEOUT", "abc")])
           (InvalidValue "--timeout" float_t (PStr "abc"))).
  - apply decimal_cvt_no_option_error.
  - vm_compute. reflexivity.
Defined.

Lemma update_defaults_touches_one_dictionary_witness :
  heap (snd (update_defaults (main_parser [("global", [("timeout", "20")])]) 1
               (snd (dict_copy 0 (main_state [("global", [("timeout", "20")])] [])))))
    !! 0
  = heap (snd (dict_copy 0 (main_state [("global", [("timeout", "20")])] []))) !! 0.
Proof.
  apply (update_defaults_touches_one_dictionary
           (main_parser [("global", [("timeout", "20")])]) 1 0
           (snd (dict_copy 0 (main_state [("global", [("timeout", "20")])] [])))).
  discriminate.
Defined.

Lemma append_choice_value_always_fails_witness :
  exists e,
    fst (update_defaults (main_parser [("global", [("exists-action", "s")])]) 0
           (main_state [("global", [("exists-action", "s")])] [])) = Raise e.
Proof.
  apply (append_choice_value_always_fails
           (main_parser [("global", [("exists-action", "s")])]) 0
           (main_state [("global", [("exists-action", "s")])] [])
           "--exists-action" "s" 13
           (make_option ["--exists-action"] append (Some choice)
              "exists_action" (Some (PList [])) ["s"; "i"; "w"; "b"])).
  - vm_compute. left. reflexivity.
  - discriminate.
  - vm_compute. reflexivity.
  - reflexivity.
  - reflexivity.
  - reflexivity.
Defined.

Lemma list_option_words_witness :
  coerced_value
    (make_option (Float := Z) ["--find-links"] append None "find_links"
       (Some (PList [])) [])
    "--find-links" ("a  b" ++ String (ascii_of_nat 10) "c")
  = Return (PList [PStr "a"; PStr "b"; PStr "c"]).
Proof.
  apply (list_option_words
           (make_option (Float := Z) ["--find-links"] append None "find_links"
              (Some (PList [])) [])
           "--find-links" ("a  b" ++ String (ascii_of_nat 10) "c")).
  - reflexivity.
  - right. reflexivity.
  - reflexivity.
Defined.

Lemma get_default_values_without_processing_witness :
  options (snd (get_default_values
                  (mkParser "global" [("global", [("timeout", "20")])] 0 false)
                  (main_state [("global", [("timeout", "20")])]
                     [("PIP_NO_INPUT", "1")])))
  = options (main_state [("global", [("timeout", "20")])] [("PIP_NO_INPUT", "1")]).
Proof.
  apply (get_default_values_without_processing
           (mkParser "global" [("global", [("timeout", "20")])] 0 false)
           (main_state [("global", [("timeout", "20")])] [("PIP_NO_INPUT", "1")])).
  reflexivity.
Defined.

Lemma global_section_merged_once_witness :
  merged_config (main_parser [("global", [("timeout", "20"); ("proxy", "p")])])
    [("PIP_TIMEOUT", "5")]
  = PyDict.update
      (normalize_keys
         (get_config_section
            (main_parser [("global", [("timeout", "20"); ("proxy", "p")])])
            "global"))
      (normalize_keys (get_environ_vars [("PIP_TIMEOUT", "5")] "PIP_")).
Proof.
  apply (global_section_merged_once
           (main_parser [("global", [("timeout", "20"); ("proxy", "p")])])
           [("PIP_TIMEOUT", "5")]).
  reflexivity.
Defined.

Lemma update_defaults_twice_witness :
  update_defaults (main_parser [("global", [("timeout", "20")])]) 0
    (snd (update_defaults (main_parser [("global", [("timeout", "20")])]) 0
            (main_state [("global", [("timeout", "20")])] [("PIP_NO_INPUT", "1")])))
  = (Return 0,
     snd (update_defaults (main_parser [("global", [("timeout", "20")])]) 0
            (main_state [("global", [("timeout", "20")])] [("PIP_NO_INPUT", "1")]))).
Proof.
  apply (update_defaults_twice
           (main_parser [("global", [("timeout", "20")])]) 0
           (main_state [("global", [("timeout", "20")])] [("PIP_NO_INPUT", "1")])).
  vm_compute. reflexivity.
Defined.


Lemma format_option_strings_shown_witness :
  format_option_strings
    (make_option (Float := Z) ["-t"; "--timeout"; "--default-timeout"] store
       (Some (builtin float_t)) "timeout" (Some (PInt 15)) [])
    (Some "SECONDS")
  = Return "-t, --timeout <SECONDS>".
Proof.
  apply (format_option_strings_shown
           (make_option (Float := Z) ["-t"; "--timeout"; "--default-timeout"] store
              (Some (builtin float_t)) "timeout" (Some (PInt 15)) [])
           (Some "SECONDS") "-t" "--timeout" [] ["--default-timeout"]).
  - reflexivity.
  - reflexivity.
Defined.

(** ** The keys of the merged mapping *)

Lemma update_invariant (P : PyDict.t -> Prop) (o : PyDict.t) :
  (forall k v d, In (k, v) o -> P d -> P (PyDict.set k v d)) ->
  forall d, P d -> P (PyDict.update d o).
Proof.
  induction o as [| [k v] o IH]; intros Hstep d Hd; [exact Hd |].
  rewrite update_cons. apply IH.
  - intros k' v' d' HIn. apply Hstep. now right.
  - apply Hstep; [now left | exact Hd].
Qed.

(** X17. Every key of the merged mapping has the shape of a long flag,
    two hyphens first and no underscore, whatever the spellings in the
    file and the environment, and the mapping has each key once. *)
Theorem merged_config_keys (self : ConfigOptionParser)
    (env : list (string * string)) :
  Forall (fun kv => PyStr.startswith (fst kv) "--" = true /\
                    PyStr.occurs "_" (fst kv) = false)
    (merged_config self env) /\
  NoDup (map fst (merged_config self env)).
Proof.
  assert (Hshape : forall items,
    Forall (fun kv => PyStr.startswith (fst kv) "--" = true /\
                      PyStr.occurs "_" (fst kv) = false)
      (normalize_keys items)).
  { intros items.
    apply (normalize_keys_invariant
             (Forall (fun kv => PyStr.startswith (fst kv) "--" = true /\
                                PyStr.occurs "_" (fst kv) = false))).
    - constructor.
    - intros k v d.
      apply (set_Forall_keys
               (fun k => PyStr.startswith k "--" = true /\
                         PyStr.occurs "_" k = false)).
      destruct (normalize_key_shape k). auto. }
  assert (Hupd : forall d o,
    Forall (fun kv => PyStr.startswith (fst kv) "--" = true /\
                      PyStr.occurs "_" (fst kv) = false) o ->
    Forall (fun kv => PyStr.startswith (fst kv) "--" = true /\
                      PyStr.occurs "_" (fst kv) = false) d /\
    NoDup (map fst d) ->
    Forall (fun kv => PyStr.startswith (fst kv) "--" = true /\
                      PyStr.occurs "_" (fst kv) = false) (PyDict.update d o) /\
    NoDup (map fst (PyDict.update d o))).
  { intros d o Ho.
    apply (update_invariant
             (fun d0 =>
                Forall (fun kv => PyStr.startswith (fst kv) "--" = true /\
                                  PyStr.occurs "_" (fst kv) = false) d0 /\
                NoDup (map fst d0))).
    intros k v d' HIn [Hd' Hnd]. split; [| now apply set_NoDup].
    apply (set_Forall_keys
             (fun k => PyStr.startswith k "--" = true /\
                       PyStr.occurs "_" k = false)); [| exact Hd'].
    rewrite Forall_forall in Ho. apply list_elem_of_In in HIn.
    exact (Ho _ HIn). }
  unfold merged_config. cbn [fold_left].
  repeat (apply Hupd; [apply Hshape |]).
  split; constructor.
Qed.
